(** * LazyLoading: the visibility-driven lazy-load pipeline

    A shallow embedding of [src/js/modules/LazyLoading.js].  The class
    instance, the document it manipulates and the browser runtime it talks
    to (timers, image preloads, fetch, the intersection observer) are one
    explicit [World]; every method and every callback of the class is a
    function on worlds, and the event loop is a fuel-bounded interpreter
    of the pending macrotasks. *)

From stdpp Require Import gmap strings list.

Set Warnings "-clear-no-such-hyp".

Local Open Scope string_scope.
Local Open Scope list_scope.

(** ** JavaScript values used by the module

    Attribute values are strings or [undefined]; [None] is [undefined]. *)

Definition truthy (v : option string) : bool :=
  match v with
  | Some s => negb (String.eqb s "")
  | None => false
  end.

(** [a || b] *)
Definition jsor (a b : option string) : option string :=
  if truthy a then a else b.

(** ** Elements *)

Record Dataset := mkDataset {
  d_src : option string;
  d_srcset : option string;
  d_sizes : option string;
  d_bg : option string;
  d_lazy : option string;
  d_placeholder : option string
}.

(** [element.style.transition] is either [''] or
    [`opacity ${ms}ms ease-in-out`]. *)
Inductive Transition :=
| NoTransition
| OpacityEase (ms : Z).

Record Style := mkStyle {
  backgroundImage : string;
  opacity : string;
  transition : Transition
}.

(** An element object.  [src] is [None] on elements that have no [src]
    property (a DIV) and [Some ""] on an IMG without a source; [children]
    holds the identities of the child elements, in document order. *)
Record Element := mkElement {
  tagName : string;
  src : option string;
  srcset : string;
  sizes : string;
  attr_loading : option string;
  complete : bool;
  naturalWidth : Z;
  dataset : Dataset;
  classList : list string;
  style : Style;
  children : list nat
}.

(** [img.loading]: the reflected property, ['eager'] unless the attribute
    says ['lazy']. *)
Definition loading (e : Element) : string :=
  match attr_loading e with
  | Some "lazy" => "lazy"
  | _ => "eager"
  end.

Definition set_d_src (v : option string) (d : Dataset) : Dataset :=
  mkDataset v (d_srcset d) (d_sizes d) (d_bg d) (d_lazy d) (d_placeholder d).
Definition set_d_srcset (v : option string) (d : Dataset) : Dataset :=
  mkDataset (d_src d) v (d_sizes d) (d_bg d) (d_lazy d) (d_placeholder d).
Definition set_d_sizes (v : option string) (d : Dataset) : Dataset :=
  mkDataset (d_src d) (d_srcset d) v (d_bg d) (d_lazy d) (d_placeholder d).
Definition set_d_bg (v : option string) (d : Dataset) : Dataset :=
  mkDataset (d_src d) (d_srcset d) (d_sizes d) v (d_lazy d) (d_placeholder d).
Definition set_d_lazy (v : option string) (d : Dataset) : Dataset :=
  mkDataset (d_src d) (d_srcset d) (d_sizes d) (d_bg d) v (d_placeholder d).

Definition set_src (v : option string) (e : Element) : Element :=
  mkElement (tagName e) v (srcset e) (sizes e) (attr_loading e) (complete e)
    (naturalWidth e) (dataset e) (classList e) (style e) (children e).
Definition set_srcset (v : string) (e : Element) : Element :=
  mkElement (tagName e) (src e) v (sizes e) (attr_loading e) (complete e)
    (naturalWidth e) (dataset e) (classList e) (style e) (children e).
Definition set_sizes (v : string) (e : Element) : Element :=
  mkElement (tagName e) (src e) (srcset e) v (attr_loading e) (complete e)
    (naturalWidth e) (dataset e) (classList e) (style e) (children e).
Definition set_dataset (f : Dataset -> Dataset) (e : Element) : Element :=
  mkElement (tagName e) (src e) (srcset e) (sizes e) (attr_loading e)
    (complete e) (naturalWidth e) (f (dataset e)) (classList e) (style e)
    (children e).
Definition set_classList (f : list string -> list string) (e : Element)
  : Element :=
  mkElement (tagName e) (src e) (srcset e) (sizes e) (attr_loading e)
    (complete e) (naturalWidth e) (dataset e) (f (classList e)) (style e)
    (children e).
Definition set_style (f : Style -> Style) (e : Element) : Element :=
  mkElement (tagName e) (src e) (srcset e) (sizes e) (attr_loading e)
    (complete e) (naturalWidth e) (dataset e) (classList e) (f (style e))
    (children e).
Definition set_children (v : list nat) (e : Element) : Element :=
  mkElement (tagName e) (src e) (srcset e) (sizes e) (attr_loading e)
    (complete e) (naturalWidth e) (dataset e) (classList e) (style e) v.

Definition set_backgroundImage (v : string) (s : Style) : Style :=
  mkStyle v (opacity s) (transition s).
Definition set_opacity (v : string) (s : Style) : Style :=
  mkStyle (backgroundImage s) v (transition s).
Definition set_transition (v : Transition) (s : Style) : Style :=
  mkStyle (backgroundImage s) (opacity s) v.

(** ** [classList]: an ordered set of tokens *)

Definition cl_contains (c : string) (l : list string) : bool :=
  bool_decide (c ∈ l).
Definition cl_add (c : string) (l : list string) : list string :=
  if cl_contains c l then l else l ++ [c].
Definition cl_remove (c : string) (l : list string) : list string :=
  List.filter (fun x => negb (String.eqb x c)) l.

(** ** Options

    The three selectors are kept as predicates on elements; the defaults
    below are the source's selector strings. [rootMargin] and [threshold]
    are only handed to the observer constructor and do not occur. *)

Record Options := mkOptions {
  imageSelector : Element -> bool;
  backgroundSelector : Element -> bool;
  contentSelector : Element -> bool;
  loadingClass : string;
  loadedClass : string;
  errorClass : string;
  fadeInDuration : Z;
  enableNativeLoading : bool;
  retryAttempts : Z;
  retryDelay : Z
}.

(** ['img[loading="lazy"], img[data-src]'] *)
Definition default_imageSelector (e : Element) : bool :=
  String.eqb (tagName e) "IMG"
  && (bool_decide (attr_loading e = Some "lazy")
      || bool_decide (is_Some (d_src (dataset e)))).
(** ['[data-bg]'] *)
Definition default_backgroundSelector (e : Element) : bool :=
  bool_decide (is_Some (d_bg (dataset e))).
(** ['[data-lazy]'] *)
Definition default_contentSelector (e : Element) : bool :=
  bool_decide (is_Some (d_lazy (dataset e))).

Definition default_options : Options :=
  {| imageSelector := default_imageSelector;
     backgroundSelector := default_backgroundSelector;
     contentSelector := default_contentSelector;
     loadingClass := "lazy-loading";
     loadedClass := "lazy-loaded";
     errorClass := "lazy-error";
     fadeInDuration := 300;
     enableNativeLoading := true;
     retryAttempts := 2;
     retryDelay := 1000 |}.

(** ** Errors, notifications and tasks *)

(** The [Error] objects the module creates or receives. [ErrNullObserver]
    is the [TypeError] of a method call on [this.observer] when it is
    [null]. *)
Inductive Error :=
| ErrNoSrc
| ErrImage (url : string)
| ErrNoBg
| ErrBackground (url : string)
| ErrHttp (status : Z) (statusText : string)
| ErrNetwork
| ErrNullObserver.

(** The two [CustomEvent]s dispatched on elements, with their [detail]. *)
Inductive Event :=
| LazyLoaded (element : nat)
| LazyError (element : nat) (error : Error) (attempts : Z).

(** What is recorded of a run: every entry into [loadElement], every
    [console.warn] of [handleLoadError] and every dispatched event, each
    with the time at which it happened. *)
Inductive Obs :=
| Invoke (element : nat)
| Warn (element : nat) (error : Error)
| Dispatch (ev : Event).

(** A parsed HTML fragment: the new element objects with their
    identities, and the identities of its top-level elements. *)
Record Fragment := mkFragment {
  nodes : list (nat * Element);
  tops : list nat
}.

Inductive FetchResult :=
| FetchOk (html : Fragment)
| FetchStatus (status : Z) (statusText : string)
| FetchFailed.

(** Who awaits the promise of a loader: [loadElement], whose [catch] runs
    [handleLoadError], or a direct caller that swallows the rejection with
    [.catch(() => {})]. *)
Inductive Caller := ViaLoadElement | Direct.

(** Pending macrotasks: timers and I/O completions. *)
Inductive Task :=
| TRetry (element : nat)
| TImageSettled (element : nat) (url : string) (c : Caller) (ok : bool)
| TBackgroundSettled (element : nat) (url : string) (c : Caller) (ok : bool)
| TFetchSettled (element : nat) (c : Caller) (r : FetchResult)
| TAnimationFrame (element : nat)
| TFadeCleanup (element : nat).

(** The environment: how an image preload requested at a given time for a
    given [src] and [srcset] ends and how long it takes, the same for
    [fetch], and the delay to the next animation frame. *)
Record Env := mkEnv {
  imageNet : Z -> string -> option string -> bool * Z;
  fetchNet : Z -> string -> FetchResult * Z;
  frameDelay : Z
}.

(** ** The world *)

Record World := mkWorld {
  (* the LazyLoading instance *)
  options : Options;
  observer : option (gset nat);
  images : list nat;
  backgrounds : list nat;
  content : list nat;
  loadAttempts : gmap (option string) Z;
  (* the document *)
  dom : gmap nat Element;
  root : nat;
  (* the runtime *)
  env : Env;
  hasIntersectionObserver : bool;
  now : Z;
  tasks : list (Z * Task);
  micro : list (nat * Error);
  (* what was observed *)
  trace : list (Z * Obs)
}.

Definition set_observer (v : option (gset nat)) (w : World) : World :=
  mkWorld (options w) v (images w) (backgrounds w) (content w)
    (loadAttempts w) (dom w) (root w) (env w) (hasIntersectionObserver w)
    (now w) (tasks w) (micro w) (trace w).
Definition set_roster (i b c : list nat) (w : World) : World :=
  mkWorld (options w) (observer w) i b c
    (loadAttempts w) (dom w) (root w) (env w) (hasIntersectionObserver w)
    (now w) (tasks w) (micro w) (trace w).
Definition set_loadAttempts (v : gmap (option string) Z) (w : World) : World :=
  mkWorld (options w) (observer w) (images w) (backgrounds w) (content w)
    v (dom w) (root w) (env w) (hasIntersectionObserver w)
    (now w) (tasks w) (micro w) (trace w).
Definition set_dom (v : gmap nat Element) (w : World) : World :=
  mkWorld (options w) (observer w) (images w) (backgrounds w) (content w)
    (loadAttempts w) v (root w) (env w) (hasIntersectionObserver w)
    (now w) (tasks w) (micro w) (trace w).
Definition set_now (v : Z) (w : World) : World :=
  mkWorld (options w) (observer w) (images w) (backgrounds w) (content w)
    (loadAttempts w) (dom w) (root w) (env w) (hasIntersectionObserver w)
    v (tasks w) (micro w) (trace w).
Definition set_tasks (v : list (Z * Task)) (w : World) : World :=
  mkWorld (options w) (observer w) (images w) (backgrounds w) (content w)
    (loadAttempts w) (dom w) (root w) (env w) (hasIntersectionObserver w)
    (now w) v (micro w) (trace w).
Definition set_micro (v : list (nat * Error)) (w : World) : World :=
  mkWorld (options w) (observer w) (images w) (backgrounds w) (content w)
    (loadAttempts w) (dom w) (root w) (env w) (hasIntersectionObserver w)
    (now w) (tasks w) v (trace w).
Definition set_trace (v : list (Z * Obs)) (w : World) : World :=
  mkWorld (options w) (observer w) (images w) (backgrounds w) (content w)
    (loadAttempts w) (dom w) (root w) (env w) (hasIntersectionObserver w)
    (now w) (tasks w) (micro w) v.

(** Mutation of one element object. *)
Definition updEl (i : nat) (f : Element -> Element) (w : World) : World :=
  set_dom (alter f i (dom w)) w.

Definition record (o : Obs) (w : World) : World :=
  set_trace (trace w ++ [(now w, o)]) w.

(** [setTimeout(task, delay)]; a negative delay counts as zero. *)
Definition setTimeout (t : Task) (delay : Z) (w : World) : World :=
  set_tasks (tasks w ++ [((now w + Z.max 0 delay)%Z, t)]) w.

(** [requestAnimationFrame]. *)
Definition requestAnimationFrame (t : Task) (w : World) : World :=
  setTimeout t (frameDelay (env w)) w.

(** ** The document tree *)

(** The elements of the subtree under [i], [i] first, in document order. *)
Fixpoint subtree (fuel : nat) (d : gmap nat Element) (i : nat) : list nat :=
  match fuel with
  | O => []
  | S f =>
      match d !! i with
      | None => []
      | Some e => i :: flat_map (subtree f d) (children e)
      end
  end.

Definition docElements (w : World) : list nat :=
  subtree (S (size (dom w))) (dom w) (root w).

(** The descendants of [i], as [i.querySelectorAll('*')] lists them. *)
Definition descendants (w : World) (i : nat) : list nat :=
  tail (subtree (S (size (dom w))) (dom w) i).

Definition matches (w : World) (sel : Element -> bool) (i : nat) : bool :=
  match dom w !! i with
  | Some e => sel e
  | None => false
  end.

(** [document.querySelectorAll(sel)] and [container.querySelectorAll(sel)] *)
Definition querySelectorAll (w : World) (sel : Element -> bool) : list nat :=
  List.filter (matches w sel) (docElements w).
Definition querySelectorAllIn (w : World) (container : nat)
    (sel : Element -> bool) : list nat :=
  List.filter (matches w sel) (descendants w container).

Definition hasClass (w : World) (c : string) (i : nat) : bool :=
  matches w (fun e => cl_contains c (classList e)) i.

(** ** The intersection observer

    [this.observer] is [null] ([None]) or an observer with its set of
    registered targets.  A method call on [null] throws. *)

Definition setupObserver (w : World) : World :=
  set_observer (Some ∅) w.

Definition observe (i : nat) (w : World) : World * option Error :=
  match observer w with
  | None => (w, Some ErrNullObserver)
  | Some s => (set_observer (Some ({[i]} ∪ s)) w, None)
  end.

Definition unobserve (i : nat) (w : World) : World * option Error :=
  match observer w with
  | None => (w, Some ErrNullObserver)
  | Some s => (set_observer (Some (s ∖ {[i]})) w, None)
  end.

(** [if (this.observer) this.observer.unobserve(element)] *)
Definition unobserve_if (i : nat) (w : World) : World :=
  match observer w with
  | None => w
  | Some s => set_observer (Some (s ∖ {[i]})) w
  end.

(** [if (this.observer) this.observer.disconnect()] *)
Definition disconnect_if (w : World) : World :=
  match observer w with
  | None => w
  | Some _ => set_observer (Some ∅) w
  end.

(** [forEach] with a body that may throw: the first exception ends it. *)
Fixpoint forEach {A} (f : A -> World -> World * option Error) (l : list A)
    (w : World) : World * option Error :=
  match l with
  | [] => (w, None)
  | x :: l' =>
      match f x w with
      | (w', None) => forEach f l' w'
      | r => r
      end
  end.

(** ** The methods of the class *)

Definition addClass (c : string) (i : nat) (w : World) : World :=
  updEl i (set_classList (cl_add c)) w.
Definition removeClass (c : string) (i : nat) (w : World) : World :=
  updEl i (set_classList (cl_remove c)) w.

(** [collectElements] *)
Definition keepImage (o : Options) (img : Element) : bool :=
  if complete img && (0 <? naturalWidth img)%Z then false
  else if String.eqb (loading img) "lazy"
          && negb (truthy (d_src (dataset img)))
          && enableNativeLoading o then false
  else true.

Definition collectElements (w : World) : World :=
  let o := options w in
  set_roster
    (List.filter (matches w (keepImage o))
       (querySelectorAll w (imageSelector o)))
    (querySelectorAll w (backgroundSelector o))
    (querySelectorAll w (contentSelector o))
    w.

(** [observeElements] *)
Definition observeElement (element : nat) (w : World) : World * option Error :=
  match observe element w with
  | (w', None) => (addClass (loadingClass (options w')) element w', None)
  | r => r
  end.

Definition observeElements (w : World) : World * option Error :=
  forEach observeElement (images w ++ backgrounds w ++ content w) w.

(** [onElementLoaded] *)
Definition onElementLoaded (element : nat) (w : World) : World :=
  let o := options w in
  let w := removeClass (loadingClass o) element w in
  let w := addClass (loadedClass o) element w in
  let w :=
    if (0 <? fadeInDuration o)%Z then
      let w := updEl element (set_style (set_opacity "0")) w in
      let w := updEl element
                 (set_style (set_transition (OpacityEase (fadeInDuration o)))) w in
      let w := requestAnimationFrame (TAnimationFrame element) w in
      setTimeout (TFadeCleanup element) (fadeInDuration o + 50) w
    else w in
  record (Dispatch (LazyLoaded element)) w.

(** [handleLoadError] *)
Definition attemptKey (e : Element) : option string :=
  jsor (jsor (src e) (d_src (dataset e))) (d_bg (dataset e)).

Definition handleLoadError (element : nat) (error : Error) (w : World)
  : World :=
  let o := options w in
  let w := record (Warn element error) w in
  match dom w !! element with
  | None => w
  | Some e =>
      let key := attemptKey e in
      let attempts := default 0%Z (loadAttempts w !! key) in
      if (attempts <? retryAttempts o)%Z then
        let w := set_loadAttempts (<[key := (attempts + 1)%Z]> (loadAttempts w)) w in
        setTimeout (TRetry element) (retryDelay o * (attempts + 1)) w
      else
        let w := removeClass (loadingClass o) element w in
        let w := addClass (errorClass o) element w in
        let w :=
          if String.eqb (tagName e) "IMG" && truthy (d_placeholder (dataset e))
          then updEl element (set_src (d_placeholder (dataset e))) w
          else w in
        record (Dispatch (LazyError element error (attempts + 1))) w
  end.

(** [reject(error)]: the continuation of the caller runs as a microtask. *)
Definition reject (element : nat) (error : Error) (c : Caller) (w : World)
  : World :=
  match c with
  | ViaLoadElement => set_micro (micro w ++ [(element, error)]) w
  | Direct => w
  end.

(** [loadImage]: the synchronous part, up to the start of the preload. *)
Definition loadImage (img : nat) (c : Caller) (w : World) : World :=
  match dom w !! img with
  | None => w
  | Some e =>
      let s := jsor (d_src (dataset e)) (src e) in
      if negb (truthy s) then reject img ErrNoSrc c w
      else
        let url := default "" s in
        let '(ok, latency) :=
          imageNet (env w) (now w) url
            (if truthy (d_srcset (dataset e)) then d_srcset (dataset e)
             else None) in
        setTimeout (TImageSettled img url c ok) latency w
  end.

(** [imageLoader.onload] *)
Definition applySrc (e : Element) : Element :=
  if truthy (d_src (dataset e))
  then set_dataset (set_d_src None) (set_src (d_src (dataset e)) e)
  else e.
Definition applySrcset (e : Element) : Element :=
  if truthy (d_srcset (dataset e))
  then set_dataset (set_d_srcset None)
         (set_srcset (default "" (d_srcset (dataset e))) e)
  else e.
Definition applySizes (e : Element) : Element :=
  if truthy (d_sizes (dataset e))
  then set_dataset (set_d_sizes None)
         (set_sizes (default "" (d_sizes (dataset e))) e)
  else e.

Definition image_onload (img : nat) (w : World) : World :=
  let w := updEl img applySrc w in
  let w := updEl img applySrcset w in
  let w := updEl img applySizes w in
  onElementLoaded img w.

(** [imageLoader.onerror] *)
Definition image_onerror (img : nat) (url : string) (c : Caller) (w : World)
  : World :=
  let error := ErrImage url in
  let w := handleLoadError img error w in
  reject img error c w.

(** [loadBackground] and its two callbacks *)
Definition loadBackground (element : nat) (c : Caller) (w : World) : World :=
  match dom w !! element with
  | None => w
  | Some e =>
      let bg := d_bg (dataset e) in
      if negb (truthy bg) then reject element ErrNoBg c w
      else
        let bgUrl := default "" bg in
        let '(ok, latency) := imageNet (env w) (now w) bgUrl None in
        setTimeout (TBackgroundSettled element bgUrl c ok) latency w
  end.

Definition background_onload (element : nat) (bgUrl : string) (w : World)
  : World :=
  let w := updEl element
             (set_style (set_backgroundImage ("url(" ++ bgUrl ++ ")")%string)) w in
  let w := updEl element (set_dataset (set_d_bg None)) w in
  onElementLoaded element w.

Definition background_onerror (element : nat) (bgUrl : string) (c : Caller)
    (w : World) : World :=
  let error := ErrBackground bgUrl in
  let w := handleLoadError element error w in
  reject element error c w.

(** [processNewContent] *)
Definition registerNew (element : nat) (w : World) : World * option Error :=
  if hasClass w (loadingClass (options w)) element then (w, None)
  else observeElement element w.

Definition processNewContent (container : nat) (w : World)
  : World * option Error :=
  let o := options w in
  let newImages := querySelectorAllIn w container (imageSelector o) in
  let newBackgrounds := querySelectorAllIn w container (backgroundSelector o) in
  let newContent := querySelectorAllIn w container (contentSelector o) in
  forEach registerNew (newImages ++ newBackgrounds ++ newContent) w.

(** [element.innerHTML = html]: the parsed nodes enter the store and
    become the children of the element. *)
Definition setInnerHTML (element : nat) (html : Fragment) (w : World) : World :=
  let w := set_dom (foldr (fun '(k, e) d => <[k := e]> d) (dom w) (nodes html)) w in
  updEl element (set_children (tops html)) w.

(** [loadContent]: the synchronous part, and the promise chain that runs
    when [fetch] settles. *)
Definition loadContent (element : nat) (c : Caller) (w : World) : World :=
  match dom w !! element with
  | None => w
  | Some e =>
      let contentUrl := d_lazy (dataset e) in
      if negb (truthy contentUrl) then onElementLoaded element w
      else
        let '(r, latency) := fetchNet (env w) (now w) (default "" contentUrl) in
        setTimeout (TFetchSettled element c r) latency w
  end.

Definition content_catch (element : nat) (error : Error) (c : Caller)
    (w : World) : World :=
  let w := handleLoadError element error w in
  reject element error c w.

Definition content_settled (element : nat) (c : Caller) (r : FetchResult)
    (w : World) : World :=
  match r with
  | FetchStatus status statusText =>
      content_catch element (ErrHttp status statusText) c w
  | FetchFailed => content_catch element ErrNetwork c w
  | FetchOk html =>
      let w := setInnerHTML element html w in
      let w := updEl element (set_dataset (set_d_lazy None)) w in
      match processNewContent element w with
      | (w, Some error) => content_catch element error c w
      | (w, None) => onElementLoaded element w
      end
  end.

(** [loadElement]; its [catch] is the [ViaLoadElement] continuation of
    [reject], run by [drain]. *)
Definition loadElement (element : nat) (w : World) : World :=
  let w := record (Invoke element) w in
  match dom w !! element with
  | None => w
  | Some e =>
      if String.eqb (tagName e) "IMG" then loadImage element ViaLoadElement w
      else if truthy (d_bg (dataset e)) then
             loadBackground element ViaLoadElement w
      else if truthy (d_lazy (dataset e)) then
             loadContent element ViaLoadElement w
      else w
  end.

(** [handleIntersection] *)
Record Entry := mkEntry {
  target : nat;
  isIntersecting : bool
}.

Definition handleEntry (entry : Entry) (w : World) : World * option Error :=
  if isIntersecting entry then
    unobserve (target entry) (loadElement (target entry) w)
  else (w, None).

Definition handleIntersection (entries : list Entry) (w : World)
  : World * option Error :=
  forEach handleEntry entries w.

(** [loadAllImmediately] *)
Definition loadAllImmediately (w : World) : World :=
  let w := collectElements w in
  let w := foldl (fun w img => loadImage img Direct w) w (images w) in
  let w := foldl (fun w bg => loadBackground bg Direct w) w (backgrounds w) in
  foldl (fun w ct => loadContent ct Direct w) w (content w).

(** [init]; [setupNativeLoading] only counts and logs, and the [catch]
    logs and throws again. *)
Definition init (w : World) : World * option Error :=
  if negb (hasIntersectionObserver w) then (loadAllImmediately w, None)
  else
    let w := setupObserver w in
    let w := collectElements w in
    observeElements w.

(** [loadNow] and [loadAll] *)
Definition loadNow (element : nat) (w : World) : World :=
  loadElement element (unobserve_if element w).

Definition loadAll (w : World) : World :=
  let c := loadingClass (options w) in
  let pendingElements :=
    List.filter (hasClass w c) (images w)
    ++ List.filter (hasClass w c) (backgrounds w)
    ++ List.filter (hasClass w c) (content w) in
  foldl (fun w element => loadElement element (unobserve_if element w)) w
    pendingElements.

(** [refresh] *)
Definition refresh (w : World) : World * option Error :=
  let w := disconnect_if w in
  let w := collectElements w in
  observeElements w.

(** [getTotalElements] *)
Definition getTotalElements (w : World) : nat :=
  length (images w) + length (backgrounds w) + length (content w).

(** [destroy] *)
Definition hasMarker (o : Options) (e : Element) : bool :=
  cl_contains (loadingClass o) (classList e)
  || cl_contains (loadedClass o) (classList e)
  || cl_contains (errorClass o) (classList e).

Definition clearMarkers (o : Options) (e : Element) : Element :=
  let e := set_classList
             (fun l => cl_remove (errorClass o)
                         (cl_remove (loadedClass o)
                            (cl_remove (loadingClass o) l))) e in
  let e := set_style (set_opacity "") e in
  set_style (set_transition NoTransition) e.

Definition destroy (w : World) : World :=
  let o := options w in
  let w := set_observer None w in
  let w := foldl (fun w element => updEl element (clearMarkers o) w) w
             (querySelectorAll w (hasMarker o)) in
  let w := set_roster [] [] [] w in
  set_loadAttempts ∅ w.

(** ** The event loop *)

(** Pending [catch] continuations of [loadElement] run before the next
    macrotask, in the order in which the promises were rejected. *)
Definition drain (w : World) : World :=
  foldl (fun w '(element, error) => handleLoadError element error w)
    (set_micro [] w) (micro w).

(** The next macrotask: the earliest due, the first queued among equals. *)
Fixpoint pick (l : list (Z * Task)) : option ((Z * Task) * list (Z * Task)) :=
  match l with
  | [] => None
  | x :: l' =>
      match pick l' with
      | None => Some (x, [])
      | Some (y, r) =>
          if (x.1 <=? y.1)%Z then Some (x, l') else Some (y, x :: r)
      end
  end.

Definition perform (t : Task) (w : World) : World :=
  match t with
  | TRetry element => loadElement element w
  | TImageSettled img url c ok =>
      if ok then image_onload img w else image_onerror img url c w
  | TBackgroundSettled element bgUrl c ok =>
      if ok then background_onload element bgUrl w
      else background_onerror element bgUrl c w
  | TFetchSettled element c r => content_settled element c r w
  | TAnimationFrame element =>
      updEl element (set_style (set_opacity "1")) w
  | TFadeCleanup element =>
      updEl element (set_style (set_transition NoTransition))
        (updEl element (set_style (set_opacity "")) w)
  end.

Definition step (w : World) : option World :=
  match pick (tasks w) with
  | None => None
  | Some ((due, t), rest) =>
      Some (drain (perform t (set_now (Z.max (now w) due) (set_tasks rest w))))
  end.

Fixpoint run (fuel : nat) (w : World) : World :=
  match fuel with
  | O => w
  | S f =>
      match step w with
      | None => w
      | Some w' => run f w'
      end
  end.

(** The attempt counter read by [handleLoadError]:
    [this.loadAttempts.get(key) || 0]. *)
Definition counter (w : World) (key : option string) : Z :=
  default 0%Z (loadAttempts w !! key).

(** ** Reading a trace *)

Definition isInvoke (i : nat) (o : Obs) : bool :=
  match o with
  | Invoke j => Nat.eqb i j
  | _ => false
  end.

Definition isFailure (i : nat) (o : Obs) : bool :=
  match o with
  | Warn j _ => Nat.eqb i j
  | _ => false
  end.

(** How often, and when, [loadElement] was entered for element [i]. *)
Definition invocationTimes (i : nat) (t : list (Z * Obs)) : list Z :=
  List.map fst (List.filter (fun x => isInvoke i x.2) t).
Definition invocations (i : nat) (t : list (Z * Obs)) : nat :=
  length (invocationTimes i t).

(** When [handleLoadError] was entered for element [i]. *)
Definition failureTimes (i : nat) (t : list (Z * Obs)) : list Z :=
  List.map fst (List.filter (fun x => isFailure i x.2) t).

(** The notifications dispatched, oldest first. *)
Definition dispatched (t : list (Z * Obs)) : list Event :=
  omap (fun x => match x.2 with Dispatch ev => Some ev | _ => None end) t.

(** ** Marker classes *)



(** ** Pages used as concrete inputs *)

(** [new LazyLoading(options)] on a page. *)
Definition construct (o : Options) (d : gmap nat Element) (r : nat) (e : Env)
    (io : bool) : World :=
  {| options := o; observer := None; images := []; backgrounds := [];
     content := []; loadAttempts := ∅; dom := d; root := r; env := e;
     hasIntersectionObserver := io; now := 0; tasks := []; micro := [];
     trace := [] |}.

Definition noDataset : Dataset := mkDataset None None None None None None.
Definition noStyle : Style := mkStyle "" "" NoTransition.

Definition htmlEl (kids : list nat) : Element :=
  mkElement "HTML" None "" "" None false 0 noDataset [] noStyle kids.
(** [<img data-src=...>] without a [src] attribute *)
Definition imgEl (dataSrc : option string) : Element :=
  mkElement "IMG" (Some "") "" "" None false 0 (set_d_src dataSrc noDataset)
    [] noStyle [].
(** [<div data-lazy=...>] *)
Definition lazyDiv (dataLazy : option string) : Element :=
  mkElement "DIV" None "" "" None false 0 (set_d_lazy dataLazy noDataset)
    [] noStyle [].

(** Every preload and every fetch fails, 50 ms after it was started. *)
Definition unreachable : Env :=
  mkEnv (fun _ _ _ => (false, 50%Z)) (fun _ _ => (FetchFailed, 50%Z)) 16.
(** Every preload succeeds after 50 ms; every fetch answers after 50 ms
    with the given fragment. *)
Definition reachable (html : Fragment) : Env :=
  mkEnv (fun _ _ _ => (true, 50%Z)) (fun _ _ => (FetchOk html, 50%Z)) 16.

(** A page whose only lazy element is [<img data-src="a.jpg">], element 1. *)
Definition onePicture (e : Env) (io : bool) : World :=
  construct default_options
    (<[1 := imgEl (Some "a.jpg")]> {[0 := htmlEl [1]]}) 0 e io.

(** [init()], then the observer reports element 1 as intersecting. *)
Definition scrolledIntoView (w : World) : World :=
  drain (handleIntersection [mkEntry 1 true] (init w).1).1.

(** The picture can never be fetched. *)
Definition brokenPicture : World := scrolledIntoView (onePicture unreachable true).

(** The unreachable picture again, now with a placeholder. *)
Definition brokenPictureWithPlaceholder : World :=
  scrolledIntoView
    (construct default_options
       (<[1 := set_dataset
                 (fun d => mkDataset (d_src d) None None None None
                             (Some "p.png"))
                 (imgEl (Some "a.jpg"))]> {[0 := htmlEl [1]]})
       0 unreachable true).

(** The picture loads. *)
Definition goodPicture : World :=
  scrolledIntoView (onePicture (reachable (mkFragment [] [])) true).

(** A page whose only lazy element is [<img data-src="">], element 1:
    matched by ['img[data-src]'], with nothing to load. *)
Definition emptyPicture : World :=
  construct default_options
    (<[1 := imgEl (Some "")]> {[0 := htmlEl [1]]}) 0 unreachable true.

(** A page with [<div data-lazy="/part.html">], element 1, whose fragment
    holds [<img data-src="b.jpg">], element 2, in a browser without
    [IntersectionObserver]. *)
Definition partHtml : Fragment := mkFragment [(2, imgEl (Some "b.jpg"))] [2].
Definition legacyBrowserPage : World :=
  construct default_options
    (<[1 := lazyDiv (Some "/part.html")]> {[0 := htmlEl [1]]}) 0
    (reachable partHtml) false.

(** ** Statements of the specification that the code does not satisfy *)

(** Missing payload: the first load attempt marks the element as errored
    and schedules nothing. *)
Definition firstAttemptIsTerminal (w : World) (i : nat) : Prop :=
  let w' := drain (loadElement i w) in
  hasClass w' (errorClass (options w')) i = true /\ tasks w' = tasks w.




(** ** Elements without a payload *)

(** Nothing to load: an IMG whose [data-src] and [src] are both empty or
    absent; any other element whose [data-bg] and [data-lazy] are. *)
Definition lacksPayload (e : Element) : Prop :=
  if String.eqb (tagName e) "IMG"
  then truthy (d_src (dataset e)) = false /\ truthy (src e) = false
  else truthy (d_bg (dataset e)) = false /\ truthy (d_lazy (dataset e)) = false.


(** ** Resolved pictures *)



(** ** Notifications of the observer *)

(** [i] is a registered target of the observer. *)
Definition registered (w : World) (i : nat) : Prop :=
  match observer w with
  | Some s => i ∈ s
  | None => False
  end.

(** The targets a batch reports as intersecting. *)
Definition intersecting (entries : list Entry) : list nat :=
  List.map target (List.filter isIntersecting entries).

(** What the primitive delivers, as the specification describes it (it
    reports threshold crossings only, for registered targets): entries for
    registered targets, and no target reported twice in one batch as
    having started to intersect. *)
Definition deliverable (w : World) (entries : list Entry) : Prop :=
  NoDup (intersecting entries)
  /\ forall en, en ∈ entries -> registered w (target en).

(** The callback of the observer, run as one macrotask. *)
Definition notify (entries : list Entry) (w : World) : World :=
  drain (handleIntersection entries w).1.

(** What the event loop does next: it delivers a batch to the callback,
    or it runs the next pending timer or completion. *)
Inductive Action :=
| Notify (entries : list Entry)
| Tick.

Definition act (a : Action) (w : World) : World :=
  match a with
  | Notify entries => notify entries w
  | Tick => default w (step w)
  end.

(** How often the intersection handler enters [loadElement] for [i]
    during one action, and along a schedule. *)
Definition triggered (i : nat) (a : Action) (w : World) : nat :=
  match a with
  | Notify entries =>
      invocations i (trace (handleIntersection entries w).1)
      - invocations i (trace w)
  | Tick => 0
  end.

Fixpoint triggers (i : nat) (sch : list Action) (w : World) : nat :=
  match sch with
  | [] => 0
  | a :: sch' => triggered i a w + triggers i sch' (act a w)
  end.

(** A schedule along which every batch is deliverable when it is
    delivered and no timer or completion registers [i] anew. *)
Fixpoint admissible (i : nat) (sch : list Action) (w : World) : Prop :=
  match sch with
  | [] => True
  | a :: sch' =>
      match a with
      | Notify entries => deliverable w entries
      | Tick => registered (act Tick w) i -> registered w i
      end
      /\ admissible i sch' (act a w)
  end.

Definition occurrences (i : nat) (l : list nat) : nat :=
  length (List.filter (Nat.eqb i) l).

(** ** Auxiliary functions used in the proofs *)

(** One function applied to each element of a list, in turn. *)
Definition alterAll (f : Element -> Element) (l : list nat)
    (d : gmap nat Element) : gmap nat Element :=
  foldl (fun d i => alter f i d) d l.

(** The loading class put on every element of a list. *)
Definition markLoading (c : string) (l : list nat) (d : gmap nat Element)
  : gmap nat Element :=
  alterAll (set_classList (cl_add c)) l d.

(** What [imageLoader.onload] does to the picture before it is marked. *)
Definition applyPending (e : Element) : Element :=
  applySizes (applySrcset (applySrc e)).

(** ** Further functions of the class and of its caller *)

(** [setupNativeLoading]: the images it counts as left to the browser;
    the number it logs is the length of this list. *)
Definition nativeImages (w : World) : list nat :=
  List.filter
    (matches w (fun img => negb (truthy (d_src (dataset img)))
                           && String.eqb (loading img) "lazy"))
    (querySelectorAll w
       (fun e => String.eqb (tagName e) "IMG"
                 && bool_decide (attr_loading e = Some "lazy"))).

Definition setupNativeLoading (w : World) : nat := length (nativeImages w).

(** The list [loadAll] works through: the roster entries that carry the
    loading class. *)
Definition pendingElements (w : World) : list nat :=
  let c := loadingClass (options w) in
  List.filter (hasClass w c) (images w)
  ++ List.filter (hasClass w c) (backgrounds w)
  ++ List.filter (hasClass w c) (content w).

(** The elements [processNewContent] looks at in a container. *)
Definition newElements (w : World) (container : nat) : list nat :=
  let o := options w in
  querySelectorAllIn w container (imageSelector o)
  ++ querySelectorAllIn w container (backgroundSelector o)
  ++ querySelectorAllIn w container (contentSelector o).

(** A run of the event loop along a schedule. *)
Definition runSchedule (sch : list Action) (w : World) : World :=
  foldl (fun w a => act a w) w sch.

(** The element is present in the store. *)
Definition present (w : World) (i : nat) : bool :=
  matches w (fun _ => true) i.

(** An element with its class list blanked: what is left is everything
    that registration and marking do not touch. *)
Definition unmarked (e : Element) : Element :=
  set_classList (fun _ => []) e.

(** [<div data-bg=...>] *)
Definition bgDiv (dataBg : option string) : Element :=
  mkElement "DIV" None "" "" None false 0 (set_d_bg dataBg noDataset)
    [] noStyle [].

(** [<img loading="lazy" src=...>], optionally with [data-src] *)
Definition lazyImg (source : string) (dataSrc : option string) : Element :=
  mkElement "IMG" (Some source) "" "" (Some "lazy") false 0
    (set_d_src dataSrc noDataset) [] noStyle [].

(** One page with a picture, a background and a fragment placeholder,
    elements 1, 2 and 3, and a natively lazy picture, element 4. *)
Definition mixedPage (e : Env) (io : bool) : World :=
  construct default_options
    (<[4 := lazyImg "d.jpg" None]>
       (<[3 := lazyDiv (Some "/part.html")]>
          (<[2 := bgDiv (Some "b.jpg")]>
             (<[1 := imgEl (Some "a.jpg")]> {[0 := htmlEl [1; 2; 3; 4]]}))))
    0 e io.

(** What no loader, callback or timer ever writes, except through
    [handleLoadError]: the options, the attempt counters and the roster. *)
Definition sameInstance (w w' : World) : Prop :=
  options w' = options w
  /\ loadAttempts w' = loadAttempts w
  /\ images w' = images w
  /\ backgrounds w' = backgrounds w
  /\ content w' = content w.

(** The bound the Retry Policy keeps on the counter of a key. *)
Definition withinBound (w : World) (key : option string) : Prop :=
  (counter w key <= Z.max 0 (retryAttempts (options w)))%Z.

(** Nothing went through [loadElement] or [handleLoadError] between two
    worlds, and nothing waits for them. *)
Definition noLoaderCall (w w' : World) : Prop :=
  observer w' = observer w
  /\ micro w' = micro w
  /\ (forall j, invocationTimes j (trace w') = invocationTimes j (trace w))
  /\ (forall j, failureTimes j (trace w') = failureTimes j (trace w)).



(** Between two worlds the options are the same, no counter went down,
    and a counter within the bound stayed within it. *)
Definition retryProgress (w w' : World) : Prop :=
  options w' = options w
  /\ forall key, (counter w key <= counter w' key)%Z
                 /\ (withinBound w key -> withinBound w' key).

(** The uses of a pipeline short of [destroy()]: an event of the event
    loop, or a call of one of its methods; the rejections each leaves are
    handled before the next one. *)
Inductive Use :=
| Happens (a : Action)
| CallInit
| CallRefresh
| CallLoadNow (element : nat)
| CallLoadAll.

Definition use (u : Use) (w : World) : World :=
  match u with
  | Happens a => act a w
  | CallInit => drain (init w).1
  | CallRefresh => drain (refresh w).1
  | CallLoadNow element => drain (loadNow element w)
  | CallLoadAll => drain (loadAll w)
  end.

Definition useAll (us : list Use) (w : World) : World :=
  foldl (fun w u => use u w) w us.

(** The page of [legacyBrowserPage] in a browser with an observer, after
    [init()]; and the same with the fragment already injected into the
    placeholder. *)
Definition onePart : World :=
  (init (construct default_options
           (<[1 := lazyDiv (Some "/part.html")]> {[0 := htmlEl [1]]}) 0
           (reachable partHtml) true)).1.

Definition fragmentInjected : World := setInnerHTML 1 partHtml onePart.


(** The page of [legacyBrowserPage] after [init()], with the fragment
    already injected into the placeholder; there is no observer. *)
Definition fragmentInjectedLegacy : World :=
  setInnerHTML 1 partHtml (init legacyBrowserPage).1.
(** * Auxiliary lemmas *)

(** ** Class lists *)

Lemma cl_contains_true c l : cl_contains c l = true <-> c ∈ l.
Proof. unfold cl_contains. apply bool_decide_eq_true. Qed.

Lemma cl_contains_false c l : cl_contains c l = false <-> c ∉ l.
Proof. unfold cl_contains. apply bool_decide_eq_false. Qed.

Lemma elem_of_cl_add c c' l : c ∈ cl_add c' l <-> c = c' \/ c ∈ l.
Proof.
  unfold cl_add. destruct (cl_contains c' l) eqn:E.
  - apply cl_contains_true in E. split; [auto | intros [-> | H]; auto].
  - rewrite elem_of_app, list_elem_of_singleton. tauto.
Qed.

Lemma elem_of_cl_remove c c' l : c ∈ cl_remove c' l <-> c <> c' /\ c ∈ l.
Proof.
  unfold cl_remove. rewrite !list_elem_of_In, filter_In, negb_true_iff.
  rewrite String.eqb_neq. tauto.
Qed.

Lemma cl_contains_add c l : cl_contains c (cl_add c l) = true.
Proof. apply cl_contains_true, elem_of_cl_add. auto. Qed.






(** ** Worlds: what an update of one element leaves alone *)

Lemma updEl_lookup i f w :
  dom (updEl i f w) !! i = f <$> dom w !! i.
Proof. unfold updEl. simpl. apply lookup_alter_eq. Qed.

Lemma updEl_lookup_ne i j f w :
  i <> j -> dom (updEl i f w) !! j = dom w !! j.
Proof. intros H. unfold updEl. simpl. by apply lookup_alter_ne. Qed.

(** ** The Retry Policy, one failure at a time *)

(** Below the bound: the counter of the key goes up by one, one timer for
    [loadElement] is set [retryDelay * (attempts + 1)] from now, and the
    element is not touched. *)
Lemma handleLoadError_retry w i err e :
  dom w !! i = Some e ->
  (counter w (attemptKey e) < retryAttempts (options w))%Z ->
  handleLoadError i err w =
    setTimeout (TRetry i)
      (retryDelay (options w) * (counter w (attemptKey e) + 1))
      (set_loadAttempts
         (<[attemptKey e := (counter w (attemptKey e) + 1)%Z]> (loadAttempts w))
         (record (Warn i err) w)).
Proof.
  intros He Hlt. unfold handleLoadError, counter in *. simpl. rewrite He.
  apply Z.ltb_lt in Hlt. by rewrite Hlt.
Qed.

(** At the bound: the element is marked, no timer is set and the counter
    table is left as it is. *)
Lemma handleLoadError_terminal w i err e :
  dom w !! i = Some e ->
  (retryAttempts (options w) <= counter w (attemptKey e))%Z ->
  let o := options w in
  let w1 := addClass (errorClass o) i
              (removeClass (loadingClass o) i (record (Warn i err) w)) in
  handleLoadError i err w =
    record (Dispatch (LazyError i err (counter w (attemptKey e) + 1)))
      (if String.eqb (tagName e) "IMG" && truthy (d_placeholder (dataset e))
       then updEl i (set_src (d_placeholder (dataset e))) w1 else w1).
Proof.
  intros He Hge. unfold handleLoadError, counter in *. simpl. rewrite He.
  apply Z.ltb_ge in Hge. by rewrite Hge.
Qed.

(** ** Loops that may throw *)

Lemma forEach_preserves {A} (P : World -> Prop)
    (f : A -> World -> World * option Error) l w :
  (forall x w, P w -> P (f x w).1) -> P w -> P (forEach f l w).1.
Proof.
  intros Hf. revert w. induction l as [|x l IH]; intros w Hw; [done|].
  simpl. specialize (Hf x w Hw). destruct (f x w) as [w' [err|]]; simpl in *.
  - done.
  - by apply IH.
Qed.

Lemma foldl_preserves {A} (P : World -> Prop) (f : World -> A -> World) l w :
  (forall x w, P w -> P (f w x)) -> P w -> P (foldl f w l).
Proof.
  intros Hf. revert w. induction l as [|x l IH]; intros w Hw; [done|].
  simpl. apply IH. by apply Hf.
Qed.

(** ** Registration with the observer *)

Lemma world_eta w :
  w = mkWorld (options w) (observer w) (images w) (backgrounds w) (content w)
        (loadAttempts w) (dom w) (root w) (env w) (hasIntersectionObserver w)
        (now w) (tasks w) (micro w) (trace w).
Proof. by destruct w. Qed.

(** With an observer at hand, [observeElements] registers every element of
    the list, puts the loading class on it and does not throw. *)
Lemma observe_all l w s :
  observer w = Some s ->
  forEach observeElement l w =
    (set_dom (markLoading (loadingClass (options w)) l (dom w))
       (set_observer (Some (list_to_set l ∪ s)) w), None).
Proof.
  revert w s. induction l as [|x l IH]; intros w s Hs.
  - simpl. unfold set_dom, set_observer. simpl.
    rewrite (left_id_L ∅ (∪)), <- Hs. by rewrite <- world_eta.
  - simpl. unfold observeElement, observe. rewrite Hs.
    erewrite IH by reflexivity. simpl.
    unfold set_dom, set_observer, addClass, updEl. simpl.
    do 2 f_equal. f_equal. set_solver.
Qed.

(** Without one, the first registration throws and nothing has changed. *)
Lemma observe_none x l w :
  observer w = None ->
  forEach observeElement (x :: l) w = (w, Some ErrNullObserver).
Proof. intros H. simpl. unfold observeElement, observe. by rewrite H. Qed.

Lemma observeElement_loadAttempts x w :
  loadAttempts (observeElement x w).1 = loadAttempts w.
Proof. unfold observeElement, observe. by destruct (observer w). Qed.

Lemma observeElement_roster x w :
  let w' := (observeElement x w).1 in
  images w' = images w /\ backgrounds w' = backgrounds w
  /\ content w' = content w.
Proof. unfold observeElement, observe. by destruct (observer w). Qed.

Lemma observeElements_loadAttempts w :
  loadAttempts (observeElements w).1 = loadAttempts w.
Proof.
  unfold observeElements.
  apply (forEach_preserves (fun w' => loadAttempts w' = loadAttempts w));
    [|done].
  intros x w' H. by rewrite observeElement_loadAttempts.
Qed.

Lemma observeElements_roster w :
  let w' := (observeElements w).1 in
  images w' = images w /\ backgrounds w' = backgrounds w
  /\ content w' = content w.
Proof.
  unfold observeElements.
  apply (forEach_preserves
           (fun w' => images w' = images w /\ backgrounds w' = backgrounds w
                      /\ content w' = content w)); [|done].
  intros x w' (H1 & H2 & H3).
  destruct (observeElement_roster x w') as (G1 & G2 & G3).
  by rewrite G1, G2, G3.
Qed.

(** ** The document under updates of single elements *)

Lemma subtree_alter f i d n j :
  (forall e, children (f e) = children e) ->
  subtree n (alter f i d) j = subtree n d j.
Proof.
  intros Hf. revert j. induction n as [|n IH]; intros j; [done|].
  simpl. rewrite lookup_alter. case_decide as Hij.
  - subst j. destruct (d !! i) as [e|]; simpl; [|done].
    rewrite Hf. f_equal. by apply flat_map_ext.
  - destruct (d !! j) as [e|]; [|done].
    f_equal. by apply flat_map_ext.
Qed.

Lemma size_alter (f : Element -> Element) i (d : gmap nat Element) :
  size (alter f i d) = size d.
Proof. by rewrite <- !size_dom, dom_alter_L. Qed.

Lemma foldl_updEl f l w :
  foldl (fun w i => updEl i f w) w l = set_dom (alterAll f l (dom w)) w.
Proof.
  unfold alterAll. revert w. induction l as [|x l IH]; intros w; simpl.
  - unfold set_dom. by rewrite <- world_eta.
  - by rewrite IH.
Qed.

Lemma alterAll_subtree f l d n j :
  (forall e, children (f e) = children e) ->
  subtree n (alterAll f l d) j = subtree n d j.
Proof.
  intros Hf. unfold alterAll. revert d.
  induction l as [|x l IH]; intros d; simpl; [done|].
  by rewrite IH, subtree_alter.
Qed.

Lemma alterAll_size f l d : size (alterAll f l d) = size d.
Proof.
  unfold alterAll. revert d.
  induction l as [|x l IH]; intros d; simpl; [done|].
  by rewrite IH, size_alter.
Qed.

Lemma alterAll_lookup_notin f l d i :
  i ∉ l -> alterAll f l d !! i = d !! i.
Proof.
  unfold alterAll. revert d.
  induction l as [|x l IH]; intros d Hi; simpl; [done|].
  apply not_elem_of_cons in Hi as [Hx Hl].
  rewrite IH by done. by rewrite lookup_alter_ne.
Qed.

(** Whatever [f] establishes and keeps holds afterwards of every element
    of the list. *)
Lemma alterAll_lookup_in (P : Element -> Prop) f l d i :
  (forall e, P (f e)) ->
  i ∈ l ->
  match alterAll f l d !! i with
  | Some e => P e
  | None => True
  end.
Proof.
  intros Hf. revert d. induction l as [|x l IH]; intros d Hi.
  - by apply elem_of_nil in Hi.
  - change (alterAll f (x :: l) d) with (alterAll f l (alter f x d)).
    destruct (decide (i ∈ l)) as [Hl|Hl].
    + by apply IH.
    + apply elem_of_cons in Hi as [->|]; [|done].
      rewrite alterAll_lookup_notin by done.
      rewrite lookup_alter_eq. destruct (d !! x); simpl; auto.
Qed.

Lemma filter_none {A} (p : A -> bool) (l : list A) :
  (forall x, x ∈ l -> p x = false) -> List.filter p l = [].
Proof.
  induction l as [|x l IH]; intros H; [done|].
  simpl. rewrite (H x) by (apply elem_of_cons; auto).
  apply IH. intros y Hy. apply H. apply elem_of_cons. auto.
Qed.

(** ** destroy *)

Lemma clearMarkers_children o e : children (clearMarkers o e) = children e.
Proof. done. Qed.

Lemma clearMarkers_clean o e : hasMarker o (clearMarkers o e) = false.
Proof.
  unfold hasMarker, clearMarkers. simpl.
  rewrite !orb_false_iff. repeat split; apply cl_contains_false;
    rewrite !elem_of_cl_remove; tauto.
Qed.

(** After [destroy()] there is no observer, no element of the document
    matches the selector of the three marker classes, and roster and
    attempt counters are empty. *)
Lemma destroy_clean w :
  let w' := destroy w in
  observer w' = None
  /\ querySelectorAll w' (hasMarker (options w')) = []
  /\ loadAttempts w' = ∅
  /\ images w' = [] /\ backgrounds w' = [] /\ content w' = [].
Proof.
  intros w'. subst w'. unfold destroy. rewrite foldl_updEl.
  repeat split.
  set (o := options w).
  set (l := querySelectorAll (set_observer None w) (hasMarker o)).
  unfold querySelectorAll, docElements.
  cbn [dom root options set_loadAttempts set_roster set_dom set_observer].
  rewrite alterAll_size, alterAll_subtree by apply clearMarkers_children.
  fold (docElements w).
  apply filter_none. intros i Hi. unfold matches. simpl.
  destruct (decide (i ∈ l)) as [Hl|Hl].
  - pose proof (alterAll_lookup_in (fun e => hasMarker o e = false)
                  (clearMarkers o) l (dom w) i (clearMarkers_clean o) Hl) as H.
    by destruct (alterAll (clearMarkers o) l (dom w) !! i).
  - rewrite alterAll_lookup_notin by done.
    destruct (dom w !! i) as [e|] eqn:He; [|done].
    destruct (hasMarker o e) eqn:Hm; [|done].
    exfalso. apply Hl. unfold l, querySelectorAll.
    apply list_elem_of_In, filter_In. split.
    + by apply list_elem_of_In.
    + unfold matches. simpl. by rewrite He.
Qed.

(** ** What one failure does to the world *)

Lemma dispatched_app t1 t2 :
  dispatched (t1 ++ t2) = dispatched t1 ++ dispatched t2.
Proof. unfold dispatched. apply omap_app. Qed.

Lemma handleLoadError_retry_effect w i err e :
  dom w !! i = Some e ->
  (counter w (attemptKey e) < retryAttempts (options w))%Z ->
  let o := options w in
  let a := counter w (attemptKey e) in
  let w' := handleLoadError i err w in
  tasks w' = tasks w ++ [((now w + Z.max 0 (retryDelay o * (a + 1)))%Z, TRetry i)]
  /\ loadAttempts w' = <[attemptKey e := (a + 1)%Z]> (loadAttempts w)
  /\ counter w' (attemptKey e) = (a + 1)%Z
  /\ dom w' = dom w
  /\ trace w' = trace w ++ [(now w, Warn i err)]
  /\ observer w' = observer w /\ micro w' = micro w /\ options w' = options w
  /\ now w' = now w.
Proof.
  intros He Hlt o a w'. subst w'.
  rewrite (handleLoadError_retry w i err e He Hlt).
  subst o a. unfold counter. simpl. rewrite lookup_insert_eq. done.
Qed.

Lemma handleLoadError_terminal_effect w i err e :
  dom w !! i = Some e ->
  (retryAttempts (options w) <= counter w (attemptKey e))%Z ->
  let o := options w in
  let a := counter w (attemptKey e) in
  let w' := handleLoadError i err w in
  tasks w' = tasks w
  /\ loadAttempts w' = loadAttempts w
  /\ trace w' = trace w ++ [(now w, Warn i err);
                            (now w, Dispatch (LazyError i err (a + 1)))]
  /\ (exists e', dom w' !! i = Some e'
        /\ classList e' = cl_add (errorClass o)
                            (cl_remove (loadingClass o) (classList e))
        /\ dataset e' = dataset e)
  /\ (forall j, j <> i -> dom w' !! j = dom w !! j)
  /\ observer w' = observer w /\ micro w' = micro w /\ options w' = options w
  /\ now w' = now w.
Proof.
  intros He Hge o a w'. subst w'.
  rewrite (handleLoadError_terminal w i err e He Hge).
  destruct (String.eqb (tagName e) "IMG" && truthy (d_placeholder (dataset e)));
    simpl; rewrite <- ?app_assoc; simpl.
  - repeat split; try done.
    + eexists. rewrite !lookup_alter_eq, He. simpl. done.
    + intros j Hj. by rewrite !lookup_alter_ne.
  - repeat split; try done.
    + eexists. rewrite !lookup_alter_eq, He. simpl. done.
    + intros j Hj. by rewrite !lookup_alter_ne.
Qed.

Lemma handleLoadError_terminal_marks w i err e :
  dom w !! i = Some e ->
  (retryAttempts (options w) <= counter w (attemptKey e))%Z ->
  hasClass (handleLoadError i err w) (errorClass (options w)) i = true.
Proof.
  intros He Hge.
  destruct (handleLoadError_terminal_effect w i err e He Hge)
    as (_ & _ & _ & (e' & He' & Hc & _) & _).
  unfold hasClass, matches. rewrite He', Hc. apply cl_contains_add.
Qed.

(** ** The drain of one pending rejection *)

Lemma drain_nothing w : micro w = [] -> drain w = w.
Proof.
  intros H. unfold drain. rewrite H. simpl. unfold set_micro.
  rewrite <- H. by rewrite <- world_eta.
Qed.

Lemma drain_one w i err :
  micro w = [(i, err)] ->
  drain w = handleLoadError i err (set_micro [] w).
Proof. intros H. unfold drain. by rewrite H. Qed.

(** ** What a successful load does to the world *)

Lemma onElementLoaded_effect w i e :
  dom w !! i = Some e ->
  let o := options w in
  let w' := onElementLoaded i w in
  (exists e', dom w' !! i = Some e'
     /\ classList e' = cl_add (loadedClass o)
                         (cl_remove (loadingClass o) (classList e))
     /\ src e' = src e /\ srcset e' = srcset e /\ sizes e' = sizes e
     /\ dataset e' = dataset e /\ children e' = children e
     /\ tagName e' = tagName e /\ attr_loading e' = attr_loading e)
  /\ (forall j, j <> i -> dom w' !! j = dom w !! j)
  /\ trace w' = trace w ++ [(now w, Dispatch (LazyLoaded i))]
  /\ loadAttempts w' = loadAttempts w /\ observer w' = observer w
  /\ micro w' = micro w /\ options w' = options w /\ now w' = now w.
Proof.
  intros He o w'. subst w' o. unfold onElementLoaded.
  destruct (0 <? fadeInDuration (options w))%Z; simpl.
  - repeat split; try done.
    + eexists. rewrite !lookup_alter_eq, He. simpl. done.
    + intros j Hj. by rewrite !lookup_alter_ne.
  - repeat split; try done.
    + eexists. rewrite !lookup_alter_eq, He. simpl. done.
    + intros j Hj. by rewrite !lookup_alter_ne.
Qed.

Lemma onElementLoaded_marks w i e :
  dom w !! i = Some e ->
  hasClass (onElementLoaded i w) (loadedClass (options w)) i = true.
Proof.
  intros He.
  destruct (onElementLoaded_effect w i e He) as ((e' & He' & Hc & _) & _).
  unfold hasClass, matches. rewrite He', Hc. apply cl_contains_add.
Qed.

(** ** A successful image load *)

Lemma applyPending_fields e :
  let e1 := applyPending e in
  src e1 = (if truthy (d_src (dataset e)) then d_src (dataset e) else src e)
  /\ srcset e1 = (if truthy (d_srcset (dataset e))
                  then default "" (d_srcset (dataset e)) else srcset e)
  /\ sizes e1 = (if truthy (d_sizes (dataset e))
                 then default "" (d_sizes (dataset e)) else sizes e)
  /\ d_src (dataset e1)
     = (if truthy (d_src (dataset e)) then None else d_src (dataset e))
  /\ d_srcset (dataset e1)
     = (if truthy (d_srcset (dataset e)) then None else d_srcset (dataset e))
  /\ d_sizes (dataset e1)
     = (if truthy (d_sizes (dataset e)) then None else d_sizes (dataset e))
  /\ d_bg (dataset e1) = d_bg (dataset e)
  /\ d_lazy (dataset e1) = d_lazy (dataset e)
  /\ classList e1 = classList e.
Proof.
  unfold applyPending, applySizes, applySrcset, applySrc.
  destruct (truthy (d_src (dataset e))) eqn:H1; simpl;
    destruct (truthy (d_srcset (dataset e))) eqn:H2; simpl;
    destruct (truthy (d_sizes (dataset e))) eqn:H3; simpl;
    rewrite ?H1, ?H2, ?H3; done.
Qed.


Lemma image_onload_effect w i e :
  dom w !! i = Some e ->
  let o := options w in
  let w' := image_onload i w in
  exists e', dom w' !! i = Some e'
    /\ classList e' = cl_add (loadedClass o)
                        (cl_remove (loadingClass o) (classList e))
    /\ src e' = src (applyPending e)
    /\ srcset e' = srcset (applyPending e)
    /\ sizes e' = sizes (applyPending e)
    /\ dataset e' = dataset (applyPending e)
    /\ trace w' = trace w ++ [(now w, Dispatch (LazyLoaded i))].
Proof.
  intros He o w'. subst w' o. unfold image_onload.
  set (w1 := updEl i applySizes (updEl i applySrcset (updEl i applySrc w))).
  assert (H1 : dom w1 !! i = Some (applyPending e)).
  { unfold w1. rewrite !updEl_lookup, He. done. }
  destruct (onElementLoaded_effect w1 i _ H1)
    as ((e' & He' & Hc & Hs & Hss & Hsz & Hd & _) & _ & Ht & _).
  exists e'. repeat split; try done.
  rewrite Hc. by destruct (applyPending_fields e) as (_&_&_&_&_&_&_&_&->).
Qed.

(** ** The classifier under the default options *)

Lemma elem_of_querySelectorAll w sel i :
  i ∈ querySelectorAll w sel -> matches w sel i = true.
Proof.
  unfold querySelectorAll. rewrite list_elem_of_In, filter_In. tauto.
Qed.




(** ** The loader and the observer *)

Ltac unfold_loaders :=
  unfold loadElement, loadImage, loadBackground, loadContent, reject,
    onElementLoaded, handleLoadError, requestAnimationFrame, setTimeout,
    record, addClass, removeClass, updEl.

Lemma loadElement_observer i w : observer (loadElement i w) = observer w.
Proof.
  unfold_loaders. simpl.
  repeat (case_match; simpl; try done).
Qed.

Lemma handleLoadError_observer i err w :
  observer (handleLoadError i err w) = observer w.
Proof.
  unfold_loaders. simpl.
  repeat (case_match; simpl; try done).
Qed.

Lemma drain_observer w : observer (drain w) = observer w.
Proof.
  unfold drain.
  apply (foldl_preserves (fun w' => observer w' = observer w)); [|done].
  intros [i err] w' H. by rewrite handleLoadError_observer.
Qed.

Lemma invocations_app i t1 t2 :
  invocations i (t1 ++ t2) = invocations i t1 + invocations i t2.
Proof.
  unfold invocations, invocationTimes.
  by rewrite List.filter_app, List.map_app, List.length_app.
Qed.

(** One entry into [loadElement] is one more invocation of that element
    and of no other. *)
Lemma loadElement_invocations j i w :
  invocations j (trace (loadElement i w))
  = invocations j (trace w) + Nat.b2n (Nat.eqb j i).
Proof.
  unfold_loaders. simpl.
  repeat (case_match; simpl; try done);
    rewrite ?invocations_app; unfold invocations, invocationTimes; simpl;
    destruct (Nat.eqb j i); simpl; lia.
Qed.

Lemma occurrences_NoDup i l : NoDup l -> occurrences i l <= 1.
Proof.
  unfold occurrences. induction 1 as [|x l Hx Hl IH]; simpl; [lia|].
  destruct (Nat.eqb_spec i x) as [->|Hne]; simpl; [|done].
  rewrite filter_none; [simpl; lia|].
  intros y Hy. apply Nat.eqb_neq. intros ->. done.
Qed.

Lemma occurrences_zero i l : i ∉ l -> occurrences i l = 0.
Proof.
  intros H. unfold occurrences. rewrite filter_none; [done|].
  intros y Hy. apply Nat.eqb_neq. intros ->. done.
Qed.

Lemma occurrences_pos i l : i ∈ l -> 0 < occurrences i l.
Proof.
  unfold occurrences. induction l as [|x l IH]; intros H.
  - by apply elem_of_nil in H.
  - simpl. destruct (Nat.eqb_spec i x) as [->|Hne]; simpl; [lia|].
    apply elem_of_cons in H as [H|H]; [done|]. by apply IH.
Qed.

Lemma handleEntry_registered en w s :
  observer w = Some s ->
  handleEntry en w =
    (if isIntersecting en
     then set_observer (Some (s ∖ {[target en]})) (loadElement (target en) w)
     else w, None).
Proof.
  intros Hs. unfold handleEntry, unobserve.
  destruct (isIntersecting en); [|done].
  by rewrite loadElement_observer, Hs.
Qed.

(** With an observer at hand the handler does not throw, unregisters
    exactly the targets reported as intersecting, and enters [loadElement]
    once for each such report. *)
Lemma handleIntersection_registered entries w s :
  observer w = Some s ->
  let r := handleIntersection entries w in
  r.2 = None
  /\ observer r.1 = Some (s ∖ list_to_set (intersecting entries))
  /\ forall i, invocations i (trace r.1)
               = invocations i (trace w) + occurrences i (intersecting entries).
Proof.
  unfold handleIntersection. revert w s.
  induction entries as [|en entries IH]; intros w s Hs.
  - simpl. repeat split.
    + rewrite Hs. f_equal. unfold intersecting. simpl. set_solver.
    + intros i. unfold occurrences, intersecting. simpl. lia.
  - simpl. rewrite (handleEntry_registered en w s Hs).
    unfold intersecting. simpl.
    destruct (isIntersecting en) eqn:Hen.
    + set (w1 := set_observer (Some (s ∖ {[target en]}))
                   (loadElement (target en) w)).
      destruct (IH w1 (s ∖ {[target en]}) eq_refl) as (H1 & H2 & H3).
      repeat split.
      * exact H1.
      * rewrite H2. f_equal. unfold intersecting. simpl. set_solver.
      * intros i. rewrite H3. unfold w1. simpl.
        rewrite loadElement_invocations.
        unfold intersecting, occurrences. simpl.
        destruct (Nat.eqb i (target en)); simpl; lia.
    + by destruct (IH w s Hs) as (H1 & H2 & H3).
Qed.

(** The counter of a key never passes the bound through a failure. *)
Lemma handleLoadError_counter_bound w i err key :
  (counter w key <= Z.max 0 (retryAttempts (options w)))%Z ->
  (counter (handleLoadError i err w) key
   <= Z.max 0 (retryAttempts (options w)))%Z.
Proof.
  intros Hb. destruct (dom w !! i) as [e|] eqn:He.
  - destruct (Z.ltb_spec (counter w (attemptKey e)) (retryAttempts (options w)))
      as [Hlt|Hge].
    + destruct (handleLoadError_retry_effect w i err e He Hlt)
        as (_ & Hl & Hc & _).
      destruct (decide (attemptKey e = key)) as [<-|Hne].
      * rewrite Hc. lia.
      * unfold counter in *. rewrite Hl. by rewrite lookup_insert_ne.
    + destruct (handleLoadError_terminal_effect w i err e He Hge)
        as (_ & Hl & _).
      unfold counter in *. by rewrite Hl.
  - unfold handleLoadError. simpl. by rewrite He.
Qed.

(** ** One failure, two calls of the Retry Policy *)

Lemma handleLoadError_micro i err w :
  micro (handleLoadError i err w) = micro w.
Proof.
  unfold_loaders. simpl.
  repeat (case_match; simpl; try done).
Qed.

Lemma set_micro_reset l w : micro w = [] -> set_micro [] (set_micro l w) = w.
Proof.
  intros H. unfold set_micro. simpl. rewrite <- H. by rewrite <- world_eta.
Qed.

(** A preload started by [loadElement] that fails is handled by
    [handleLoadError] in [onerror] and again in the [catch] of
    [loadElement]; the same holds for backgrounds and fragments. *)
Lemma image_failure_is_handled_twice w i url :
  micro w = [] ->
  drain (image_onerror i url ViaLoadElement w)
  = handleLoadError i (ErrImage url) (handleLoadError i (ErrImage url) w).
Proof.
  intros Hm. unfold image_onerror, reject.
  rewrite (drain_one _ i (ErrImage url)).
  - rewrite set_micro_reset; [done|]. by rewrite handleLoadError_micro.
  - simpl. by rewrite handleLoadError_micro, Hm.
Qed.

Lemma background_failure_is_handled_twice w i url :
  micro w = [] ->
  drain (background_onerror i url ViaLoadElement w)
  = handleLoadError i (ErrBackground url)
      (handleLoadError i (ErrBackground url) w).
Proof.
  intros Hm. unfold background_onerror, reject.
  rewrite (drain_one _ i (ErrBackground url)).
  - rewrite set_micro_reset; [done|]. by rewrite handleLoadError_micro.
  - simpl. by rewrite handleLoadError_micro, Hm.
Qed.

Lemma fetch_failure_is_handled_twice w i :
  micro w = [] ->
  drain (content_settled i ViaLoadElement FetchFailed w)
  = handleLoadError i ErrNetwork (handleLoadError i ErrNetwork w).
Proof.
  intros Hm. unfold content_settled, content_catch, reject.
  rewrite (drain_one _ i ErrNetwork).
  - rewrite set_micro_reset; [done|]. by rewrite handleLoadError_micro.
  - simpl. by rewrite handleLoadError_micro, Hm.
Qed.

(** * Properties of the pipeline *)

(** ** Persistent failure of one picture *)

(** C1 (defect in the code).  A page with one [<img data-src="a.jpg">]
    that can never be fetched, default options, scrolled into view once.
    Every failed load runs [handleLoadError] twice, once from [onerror] and
    once from the [catch] of [loadElement].  After the third macrotask the
    element carries the error class although [loadElement] has run only
    twice, the two ['lazyError'] notifications sent at that point say
    [attempts: 3], and a retry is still pending; at the end [loadElement]
    has run three times and four ['lazyError'] notifications were sent.
    When the picture has a placeholder, the terminal failure changes its
    [src] and with it the key of the counter, and [loadElement] runs five
    times. *)
Theorem C1_one_failure_is_handled_twice :
  let w3 := run 3 brokenPicture in
  let wf := run 20 brokenPicture in
  invocations 1 (trace w3) = 2
  /\ hasClass w3 "lazy-error" 1 = true
  /\ dispatched (trace w3)
     = [LazyError 1 (ErrImage "a.jpg") 3; LazyError 1 (ErrImage "a.jpg") 3]
  /\ tasks w3 = [(2050%Z, TRetry 1)]
  /\ invocations 1 (trace wf) = 3
  /\ length (dispatched (trace wf)) = 4
  /\ tasks wf = []
  /\ invocations 1 (trace (run 40 brokenPictureWithPlaceholder)) = 5
  /\ tasks (run 40 brokenPictureWithPlaceholder) = [].
Proof. vm_compute. repeat split. Qed.

(** ** Elements with nothing to load *)

(** C2, as stated, fails: [<img data-src="">] is classified and has nothing
    to load, yet its first load attempt does not mark it and sets a retry
    timer. *)
Lemma C2_missing_payload_is_retried :
  images (init emptyPicture).1 = [1]
  /\ ~ firstAttemptIsTerminal (init emptyPicture).1 1.
Proof.
  split; [by vm_compute|].
  intros [H _]. apply (eq_true_false_abs _ H). by vm_compute.
Qed.

(** C2, as the code has it.  An element without a payload is not failed
    at once.  An IMG without [data-src] and [src] is rejected before any
    preload and the rejection goes through the ordinary Retry Policy:
    while the counter of its key is below [retryAttempts] a retry is
    scheduled, nothing is marked and nothing is sent; only at the bound
    is it marked with the error class.  Called directly, [loadImage]
    changes nothing.  On any other element without [data-bg] and
    [data-lazy], [loadElement] does nothing at all; called directly,
    [loadBackground] changes nothing and [loadContent] marks the element
    as loaded. *)
Theorem C2_missing_payload_is_not_a_terminal_failure
    (w : World) (i : nat) (e : Element) :
  dom w !! i = Some e ->
  micro w = [] ->
  lacksPayload e ->
  let o := options w in
  let a := counter w (attemptKey e) in
  let w' := drain (loadElement i w) in
  if String.eqb (tagName e) "IMG" then
    loadImage i Direct w = w
    /\ if (a <? retryAttempts o)%Z then
         tasks w'
         = tasks w ++ [((now w + Z.max 0 (retryDelay o * (a + 1)))%Z, TRetry i)]
         /\ dom w' = dom w
         /\ counter w' (attemptKey e) = (a + 1)%Z
         /\ dispatched (trace w') = dispatched (trace w)
       else
         tasks w' = tasks w
         /\ hasClass w' (errorClass o) i = true
         /\ dispatched (trace w')
            = dispatched (trace w) ++ [LazyError i ErrNoSrc (a + 1)]
  else
    w' = record (Invoke i) w
    /\ loadBackground i Direct w = w
    /\ loadContent i Direct w = onElementLoaded i w
    /\ hasClass (onElementLoaded i w) (loadedClass o) i = true.
Proof.
  intros He Hm Hlack o a w'. unfold lacksPayload in Hlack.
  destruct (String.eqb (tagName e) "IMG") eqn:Himg.
  - destruct Hlack as [Hds Hs].
    set (w2 := set_micro [] (set_micro [(i, ErrNoSrc)] (record (Invoke i) w))).
    assert (Hd : w' = handleLoadError i ErrNoSrc w2).
    { subst w'. rewrite <- (drain_one (set_micro [(i, ErrNoSrc)]
                                         (record (Invoke i) w))) by done.
      f_equal. unfold loadElement. simpl. rewrite He, Himg.
      unfold loadImage. simpl. rewrite He. unfold jsor. rewrite Hds, Hs.
      simpl. unfold reject. simpl. by rewrite Hm. }
    assert (He2 : dom w2 !! i = Some e) by done.
    split.
    { unfold loadImage. rewrite He. unfold jsor. by rewrite Hds, Hs. }
    destruct (a <? retryAttempts o)%Z eqn:Hlt.
    + apply Z.ltb_lt in Hlt.
      destruct (handleLoadError_retry_effect w2 i ErrNoSrc e He2 Hlt)
        as (Ht & _ & Hc & Hdom & Htr & _).
      rewrite Hd. repeat split; try done.
      rewrite Htr. unfold w2. simpl. rewrite !dispatched_app. simpl.
      by rewrite !app_nil_r.
    + apply Z.ltb_ge in Hlt.
      destruct (handleLoadError_terminal_effect w2 i ErrNoSrc e He2 Hlt)
        as (Ht & _ & Htr & _).
      rewrite Hd. repeat split; try done.
      * by apply (handleLoadError_terminal_marks w2 i ErrNoSrc e).
      * rewrite Htr. unfold w2. simpl. rewrite !dispatched_app. simpl.
        by rewrite !app_nil_r.
  - destruct Hlack as [Hbg Hlz]. repeat split.
    + subst w'. unfold loadElement. simpl. rewrite He, Himg, Hbg, Hlz.
      by apply drain_nothing.
    + unfold loadBackground. rewrite He. simpl. by rewrite Hbg.
    + unfold loadContent. rewrite He. simpl. by rewrite Hlz.
    + by apply (onElementLoaded_marks w i e).
Qed.

Lemma C2_empty_data_src_is_retried :
  dom (init emptyPicture).1 !! 1
  = Some (set_classList (cl_add "lazy-loading") (imgEl (Some "")))
  /\ micro (init emptyPicture).1 = []
  /\ lacksPayload (set_classList (cl_add "lazy-loading") (imgEl (Some "")))
  /\ tasks (drain (loadElement 1 (init emptyPicture).1)) = [(1000%Z, TRetry 1)]
  /\ dom (drain (loadElement 1 (init emptyPicture).1))
     = dom (init emptyPicture).1.
Proof.
  assert (H1 : dom (init emptyPicture).1 !! 1
               = Some (set_classList (cl_add "lazy-loading") (imgEl (Some ""))))
    by (by vm_compute).
  assert (H2 : micro (init emptyPicture).1 = []) by (by vm_compute).
  assert (H3 : lacksPayload
                 (set_classList (cl_add "lazy-loading") (imgEl (Some ""))))
    by (by vm_compute).
  pose proof (C2_missing_payload_is_not_a_terminal_failure
                (init emptyPicture).1 1 _ H1 H2 H3) as H.
  destruct H as (_ & Ht & Hd & _).
  split; [exact H1|]. split; [exact H2|]. split; [exact H3|].
  split; [exact Ht | exact Hd].
Defined.

(** ** Loading a picture twice *)




(** ** Backoff *)

(** C4 (defect in the code).  On the same page the first failure, at 50 ms,
    sets both retry timers at once, for 1050 ms and 2050 ms.  The second
    invocation of [loadElement] comes 1000 ms after the first failure, but
    the third comes at 2050 ms, only 950 ms after the second failure at
    1100 ms, not 2000 ms after it. *)
Theorem C4_both_retries_are_timed_from_the_first_failure :
  let wf := run 20 brokenPicture in
  tasks (run 1 brokenPicture) = [(1050%Z, TRetry 1); (2050%Z, TRetry 1)]
  /\ invocationTimes 1 (trace wf) = [0%Z; 1050%Z; 2050%Z]
  /\ failureTimes 1 (trace wf)
     = [50%Z; 50%Z; 1100%Z; 1100%Z; 2100%Z; 2100%Z]
  /\ (2050 - 1100 < 2000)%Z.
Proof. vm_compute. repeat split. Qed.

(** ** Marker classes *)





(** ** At most one trigger per registration *)

Lemma elem_of_intersecting i entries :
  i ∈ intersecting entries ->
  exists en, en ∈ entries /\ isIntersecting en = true /\ target en = i.
Proof.
  unfold intersecting. rewrite list_elem_of_In, in_map_iff.
  intros (en & Ht & Hin). apply filter_In in Hin as [Hin Hen].
  exists en. by rewrite list_elem_of_In.
Qed.

(** A deliverable batch is handled without an exception; afterwards the
    registered targets are the old ones less those reported as
    intersecting, and the handler has entered [loadElement] once for each
    such report. *)
Lemma notify_deliverable entries w i :
  deliverable w entries ->
  triggered i (Notify entries) w = occurrences i (intersecting entries)
  /\ (registered (notify entries w) i ->
      registered w i /\ i ∉ intersecting entries).
Proof.
  intros [Hnd Hreg]. unfold triggered, notify, registered.
  rewrite drain_observer.
  destruct (observer w) as [s|] eqn:Hs.
  - destruct (handleIntersection_registered entries w s Hs) as (_ & Ho & Hi).
    rewrite Ho, Hi. split; [lia|].
    rewrite elem_of_difference, elem_of_list_to_set. tauto.
  - destruct entries as [|en entries].
    + simpl. rewrite Hs. split; [unfold occurrences; simpl; lia | done].
    + exfalso. specialize (Hreg en). unfold registered in Hreg.
      rewrite Hs in Hreg. apply Hreg, elem_of_cons. auto.
Qed.

Lemma triggers_bound i sch :
  forall w, admissible i sch w ->
    triggers i sch w <= 1 /\ (~ registered w i -> triggers i sch w = 0).
Proof.
  induction sch as [|a sch IH]; intros w Hadm; [simpl; lia|].
  destruct Hadm as [Ha Hadm]. destruct (IH _ Hadm) as [IH1 IH0].
  cbn [triggers]. destruct a as [entries|].
  - destruct (notify_deliverable entries w i Ha) as [Ht Hafter].
    rewrite Ht. cbn [act] in *.
    destruct (decide (i ∈ intersecting entries)) as [Hin|Hin].
    + assert (Hgone : ~ registered (notify entries w) i).
      { intros H. by destruct (Hafter H). }
      rewrite (IH0 Hgone).
      pose proof (occurrences_NoDup i _ (proj1 Ha)). split; [lia|].
      intros Hnot. exfalso. apply Hnot.
      destruct (elem_of_intersecting i entries Hin) as (en & Hen & _ & <-).
      by apply (proj2 Ha).
    + rewrite (occurrences_zero i _ Hin). split; [lia|].
      intros Hnot. simpl. apply IH0. intros H. by destruct (Hafter H).
  - cbn [triggered]. split; [lia|].
    intros Hnot. simpl. apply IH0. intros H. by apply Hnot, Ha.
Qed.

(** C6.  Along any schedule of the event loop in which every batch is one
    the observer can deliver for the targets registered at that moment
    and in which no timer or completion registers the element anew, the
    intersection handler enters [loadElement] for that element at most
    once. *)
Theorem C6_at_most_one_trigger_per_registration
    (i : nat) (sch : list Action) (w : World) :
  admissible i sch w -> triggers i sch w <= 1.
Proof. intros H. by destruct (triggers_bound i sch w H). Qed.

Lemma C6_one_picture_scrolled_past_twice :
  admissible 1 [Notify [mkEntry 1 true]; Tick; Notify []]
    (init (onePicture unreachable true)).1
  /\ triggers 1 [Notify [mkEntry 1 true]; Tick; Notify []]
       (init (onePicture unreachable true)).1 <= 1.
Proof.
  assert (H : admissible 1 [Notify [mkEntry 1 true]; Tick; Notify []]
                (init (onePicture unreachable true)).1).
  { cbn [admissible]. split; [|split; [|split; [|done]]].
    - split; [apply NoDup_singleton|].
      intros en Hen. apply list_elem_of_singleton in Hen as ->.
      by vm_compute.
    - assert (E : observer (act Tick (act (Notify [mkEntry 1 true])
                                        (init (onePicture unreachable true)).1))
                  = Some ∅) by (by vm_compute).
      unfold registered at 1. rewrite E. set_solver.
    - split; [apply NoDup_nil_2|]. intros en Hen.
      by apply elem_of_nil in Hen. }
  split; [exact H|].
  exact (C6_at_most_one_trigger_per_registration 1 _ _ H).
Defined.

(** ** A browser without IntersectionObserver *)

(** C7 (defect in the code).  In a browser without [IntersectionObserver],
    on a page with [<div data-lazy="/part.html">] whose fragment holds a
    lazy picture, [init()] does not throw and the [div] is classified, but
    [processNewContent] calls [observe] on the [null] observer: the
    [TypeError] is handled as a load failure of the [div], whose retry
    finds no [data-lazy] any more and does nothing.  When no task is left
    the [div] carries neither the loaded nor the error class, no
    notification was sent and the nested picture was never loaded. *)
Theorem C7_fragment_with_lazy_children_never_settles :
  let w0 := (init legacyBrowserPage).1 in
  let w := run 20 w0 in
  (init legacyBrowserPage).2 = None
  /\ content w0 = [1]
  /\ tasks w = []
  /\ observer w = None
  /\ trace w = [(50%Z, Warn 1 ErrNullObserver); (1050%Z, Invoke 1)]
  /\ hasClass w "lazy-loaded" 1 = false
  /\ hasClass w "lazy-error" 1 = false
  /\ invocations 2 (trace w) = 0.
Proof. vm_compute. repeat split. Qed.

(** ** destroy after refresh *)

(** C8.  Whatever the pipeline did before, after [refresh()] followed by
    [destroy()] there is no observer and so no registration, the selector
    of the three marker classes matches no element of the document, the
    attempt counter table is empty and the three rosters are empty.  This
    includes a [refresh()] that throws for want of an observer. *)
Theorem C8_refresh_then_destroy_leaves_nothing (w : World) :
  let w' := destroy (refresh w).1 in
  observer w' = None
  /\ querySelectorAll w' (hasMarker (options w')) = []
  /\ List.filter (fun i => hasClass w' (loadingClass (options w')) i
                           || hasClass w' (loadedClass (options w')) i
                           || hasClass w' (errorClass (options w')) i)
       (docElements w') = []
  /\ loadAttempts w' = ∅
  /\ getTotalElements w' = 0
  /\ images w' = [] /\ backgrounds w' = [] /\ content w' = [].
Proof.
  intros w'. subst w'.
  destruct (destroy_clean (refresh w).1) as (H1 & H2 & H3 & H4 & H5 & H6).
  split; [exact H1|]. split; [exact H2|]. split.
  { rewrite <- H2. unfold querySelectorAll. apply filter_ext.
    intros i. unfold hasClass, matches, hasMarker.
    by destruct (dom (destroy (refresh w).1) !! i). }
  split; [exact H3|]. split.
  { unfold getTotalElements. by rewrite H4, H5, H6. }
  auto.
Qed.

(** ** refresh *)

(** C9.  [refresh()] leaves the attempt counter table as it was, whatever
    its keys; the roster it leaves is the one the classifier computes on
    the current document; and when there is an observer, the registered
    targets afterwards are exactly the elements of that roster, and
    nothing is thrown. *)
Theorem C9_refresh_keeps_the_attempt_counters (w : World) :
  let w' := (refresh w).1 in
  loadAttempts w' = loadAttempts w
  /\ (forall key, counter w' key = counter w key)
  /\ images w' = images (collectElements w)
  /\ backgrounds w' = backgrounds (collectElements w)
  /\ content w' = content (collectElements w)
  /\ match observer w with
     | Some _ =>
         (refresh w).2 = None
         /\ observer w' = Some (list_to_set (images w' ++ backgrounds w' ++ content w'))
     | None => observer w' = None
     end.
Proof.
  intros w'. subst w'. unfold refresh.
  set (w1 := collectElements (disconnect_if w)).
  assert (Hl : loadAttempts (observeElements w1).1 = loadAttempts w).
  { rewrite observeElements_loadAttempts. unfold w1, disconnect_if.
    by destruct (observer w). }
  destruct (observeElements_roster w1) as (Hi & Hb & Hc).
  assert (Hr : images w1 = images (collectElements w)
               /\ backgrounds w1 = backgrounds (collectElements w)
               /\ content w1 = content (collectElements w)).
  { unfold w1, disconnect_if. by destruct (observer w). }
  destruct Hr as (Hi' & Hb' & Hc').
  split; [done|]. split; [intros key; unfold counter; by rewrite Hl|].
  rewrite Hi, Hb, Hc. repeat split; try done.
  unfold observeElements.
  destruct (observer w) as [s|] eqn:Hs.
  - assert (Ho : observer w1 = Some ∅).
    { unfold w1, disconnect_if. by rewrite Hs. }
    rewrite (observe_all _ _ _ Ho). simpl. split; [done|].
    f_equal. set_solver.
  - assert (Ho : observer w1 = None).
    { unfold w1, disconnect_if. by rewrite Hs. }
    destruct (images w1 ++ backgrounds w1 ++ content w1) as [|x l]; [done|].
    by rewrite observe_none.
Qed.

(** ** The attempt counter *)



(** * Further lemmas *)

(** ** What the loaders leave alone *)

Lemma sameInstance_refl w : sameInstance w w.
Proof. by repeat split. Qed.

Lemma sameInstance_trans w1 w2 w3 :
  sameInstance w1 w2 -> sameInstance w2 w3 -> sameInstance w1 w3.
Proof.
  intros (A1 & A2 & A3 & A4 & A5) (B1 & B2 & B3 & B4 & B5).
  repeat split; congruence.
Qed.

Lemma onElementLoaded_sameInstance i w : sameInstance w (onElementLoaded i w).
Proof.
  unfold sameInstance. unfold_loaders. simpl.
  repeat (case_match; simpl; try done).
Qed.

Lemma loadElement_sameInstance i w : sameInstance w (loadElement i w).
Proof.
  unfold sameInstance. unfold_loaders. simpl.
  repeat (case_match; simpl; try done).
Qed.

Lemma loadImage_sameInstance i c w : sameInstance w (loadImage i c w).
Proof.
  unfold sameInstance. unfold_loaders. simpl.
  repeat (case_match; simpl; try done).
Qed.

Lemma loadBackground_sameInstance i c w :
  sameInstance w (loadBackground i c w).
Proof.
  unfold sameInstance. unfold_loaders. simpl.
  repeat (case_match; simpl; try done).
Qed.

Lemma loadContent_sameInstance i c w : sameInstance w (loadContent i c w).
Proof.
  unfold sameInstance. unfold_loaders. simpl.
  repeat (case_match; simpl; try done).
Qed.

(** The synchronous part of [loadElement] touches no element, no
    registration and no counter; it leaves exactly one new pending
    completion, or one pending rejection, or nothing. *)
Lemma loadElement_sync i w :
  dom (loadElement i w) = dom w
  /\ observer (loadElement i w) = observer w
  /\ now (loadElement i w) = now w
  /\ trace (loadElement i w) = trace w ++ [(now w, Invoke i)]
  /\ ((exists t, tasks (loadElement i w) = tasks w ++ [t]
                 /\ micro (loadElement i w) = micro w)
      \/ (exists err, tasks (loadElement i w) = tasks w
                      /\ micro (loadElement i w) = micro w ++ [(i, err)])
      \/ (tasks (loadElement i w) = tasks w
          /\ micro (loadElement i w) = micro w)).
Proof.
  unfold loadElement.
  destruct (dom (record (Invoke i) w) !! i) as [e|] eqn:He;
    [|simpl; by repeat split; try (right; right)].
  simpl in He.
  destruct (String.eqb (tagName e) "IMG").
  { unfold loadImage. simpl. rewrite He.
    destruct (negb (truthy (jsor (d_src (dataset e)) (src e)))).
    - simpl. repeat split; try done. right; left. by eexists.
    - destruct (imageNet _ _ _ _) as [ok lat]. simpl.
      repeat split; try done. left. by eexists. }
  destruct (truthy (d_bg (dataset e))) eqn:Hbg.
  { unfold loadBackground. simpl. rewrite He, Hbg. simpl.
    destruct (imageNet _ _ _ _) as [ok lat]. simpl.
    repeat split; try done. left. by eexists. }
  destruct (truthy (d_lazy (dataset e))) eqn:Hlz.
  { unfold loadContent. simpl. rewrite He, Hlz. simpl.
    destruct (fetchNet _ _ _) as [r lat]. simpl.
    repeat split; try done. left. by eexists. }
  simpl. repeat split; try done. by right; right.
Qed.

(** ** Registration of a roster *)

Lemma alterAll_present f l d i :
  is_Some (alterAll f l d !! i) <-> is_Some (d !! i).
Proof.
  unfold alterAll. revert d. induction l as [|x l IH]; intros d; [done|].
  simpl. rewrite IH. apply lookup_alter_is_Some.
Qed.

Lemma querySelectorAll_present w sel i :
  i ∈ querySelectorAll w sel -> is_Some (dom w !! i).
Proof.
  intros H. apply elem_of_querySelectorAll in H. unfold matches in H.
  by destruct (dom w !! i).
Qed.

Lemma collectElements_present w i :
  let w' := collectElements w in
  i ∈ images w' ++ backgrounds w' ++ content w' -> is_Some (dom w !! i).
Proof.
  unfold collectElements. simpl. rewrite !elem_of_app. intros [H|[H|H]].
  - apply list_elem_of_In, filter_In in H as [H _].
    by apply list_elem_of_In, querySelectorAll_present in H.
  - by apply querySelectorAll_present in H.
  - by apply querySelectorAll_present in H.
Qed.

Lemma markLoading_marks c l d i :
  i ∈ l -> is_Some (d !! i) ->
  exists e, markLoading c l d !! i = Some e /\ c ∈ classList e.
Proof.
  intros Hi Hd. unfold markLoading.
  pose proof (alterAll_lookup_in (fun e => c ∈ classList e)
                (set_classList (cl_add c)) l d i) as H.
  apply (proj2 (alterAll_present (set_classList (cl_add c)) l d i)) in Hd.
  destruct Hd as [e He]. exists e. split; [done|].
  rewrite He in H. apply H; [|done].
  intros e0. simpl. apply elem_of_cl_add. auto.
Qed.

Lemma init_with_observer w :
  hasIntersectionObserver w = true ->
  let r := init w in
  let l := images r.1 ++ backgrounds r.1 ++ content r.1 in
  r.2 = None
  /\ images r.1 = images (collectElements w)
  /\ backgrounds r.1 = backgrounds (collectElements w)
  /\ content r.1 = content (collectElements w)
  /\ observer r.1 = Some (list_to_set l)
  /\ dom r.1 = markLoading (loadingClass (options w)) l (dom w)
  /\ tasks r.1 = tasks w /\ micro r.1 = micro w /\ trace r.1 = trace w
  /\ loadAttempts r.1 = loadAttempts w /\ options r.1 = options w.
Proof.
  intros Hio. unfold init. rewrite Hio. simpl.
  unfold observeElements.
  rewrite (observe_all _ (collectElements (setupObserver w)) ∅) by done.
  simpl. repeat split. f_equal. set_solver.
Qed.

(** ** The eager path *)

Lemma invocationTimes_dispatch j t n ev :
  invocationTimes j (t ++ [(n, Dispatch ev)]) = invocationTimes j t.
Proof.
  unfold invocationTimes. rewrite List.filter_app, List.map_app. simpl.
  by rewrite app_nil_r.
Qed.

Lemma failureTimes_dispatch j t n ev :
  failureTimes j (t ++ [(n, Dispatch ev)]) = failureTimes j t.
Proof.
  unfold failureTimes. rewrite List.filter_app, List.map_app. simpl.
  by rewrite app_nil_r.
Qed.

Lemma noLoaderCall_refl w : noLoaderCall w w.
Proof. by repeat split. Qed.

Lemma noLoaderCall_trans w1 w2 w3 :
  noLoaderCall w1 w2 -> noLoaderCall w2 w3 -> noLoaderCall w1 w3.
Proof.
  intros (A1 & A2 & A3 & A4) (B1 & B2 & B3 & B4).
  split; [congruence|]. split; [congruence|]. split.
  - intros j. by rewrite B3, A3.
  - intros j. by rewrite B4, A4.
Qed.

Lemma onElementLoaded_noLoaderCall i w : noLoaderCall w (onElementLoaded i w).
Proof.
  unfold noLoaderCall. unfold_loaders. simpl.
  repeat (case_match; simpl; try done);
    repeat split; try done; intros j;
    by rewrite ?invocationTimes_dispatch, ?failureTimes_dispatch.
Qed.

Lemma loadImage_direct i w : noLoaderCall w (loadImage i Direct w).
Proof.
  unfold noLoaderCall. unfold_loaders. simpl.
  repeat (case_match; simpl; try done).
Qed.

Lemma loadBackground_direct i w : noLoaderCall w (loadBackground i Direct w).
Proof.
  unfold noLoaderCall. unfold_loaders. simpl.
  repeat (case_match; simpl; try done).
Qed.

Lemma loadContent_direct i w : noLoaderCall w (loadContent i Direct w).
Proof.
  unfold loadContent. destruct (dom w !! i) as [e|]; [|apply noLoaderCall_refl].
  destruct (negb (truthy (d_lazy (dataset e)))).
  - apply onElementLoaded_noLoaderCall.
  - destruct (fetchNet _ _ _) as [r lat]. by repeat split.
Qed.

Lemma loadAllImmediately_quiet w :
  sameInstance (collectElements w) (loadAllImmediately w)
  /\ noLoaderCall w (loadAllImmediately w).
Proof.
  unfold loadAllImmediately.
  set (w0 := collectElements w).
  set (P := fun w' => sameInstance w0 w' /\ noLoaderCall w w').
  assert (H0 : P w0).
  { split; [apply sameInstance_refl | by repeat split]. }
  assert (H1 : P (foldl (fun w img => loadImage img Direct w) w0 (images w0))).
  { apply (foldl_preserves P); [|done]. intros x w' [A B]. split.
    - eapply sameInstance_trans; [exact A | apply loadImage_sameInstance].
    - eapply noLoaderCall_trans; [exact B | apply loadImage_direct]. }
  set (w1 := foldl (fun w img => loadImage img Direct w) w0 (images w0)) in *.
  assert (H2 : P (foldl (fun w bg => loadBackground bg Direct w) w1
                    (backgrounds w1))).
  { apply (foldl_preserves P); [|done]. intros x w' [A B]. split.
    - eapply sameInstance_trans; [exact A | apply loadBackground_sameInstance].
    - eapply noLoaderCall_trans; [exact B | apply loadBackground_direct]. }
  set (w2 := foldl (fun w bg => loadBackground bg Direct w) w1
               (backgrounds w1)) in *.
  apply (foldl_preserves P); [|done]. intros x w' [A B]. split.
  - eapply sameInstance_trans; [exact A | apply loadContent_sameInstance].
  - eapply noLoaderCall_trans; [exact B | apply loadContent_direct].
Qed.

(** ** Counters along a run *)

Lemma retryProgress_refl w : retryProgress w w.
Proof. split; [done|]. intros key. split; [lia | done]. Qed.

Lemma retryProgress_trans w1 w2 w3 :
  retryProgress w1 w2 -> retryProgress w2 w3 -> retryProgress w1 w3.
Proof.
  intros [A1 A2] [B1 B2]. split; [congruence|].
  intros key. destruct (A2 key) as [A3 A4]. destruct (B2 key) as [B3 B4].
  split; [lia | auto].
Qed.

Lemma retryProgress_same w w' :
  options w' = options w -> loadAttempts w' = loadAttempts w ->
  retryProgress w w'.
Proof.
  intros Ho Hl. split; [done|]. intros key.
  unfold withinBound, counter. rewrite Ho, Hl. split; [lia | done].
Qed.

Lemma sameInstance_progress w w' : sameInstance w w' -> retryProgress w w'.
Proof. intros (Ho & Hl & _). by apply retryProgress_same. Qed.

Lemma handleLoadError_options i err w :
  options (handleLoadError i err w) = options w.
Proof.
  unfold_loaders. simpl.
  repeat (case_match; simpl; try done).
Qed.

Lemma handleLoadError_progress i err w :
  retryProgress w (handleLoadError i err w).
Proof.
  split; [apply handleLoadError_options|]. intros key. split.
  - destruct (dom w !! i) as [e|] eqn:He.
    + destruct (Z.ltb_spec (counter w (attemptKey e))
                  (retryAttempts (options w))) as [Hlt|Hge].
      * destruct (handleLoadError_retry_effect w i err e He Hlt)
          as (_ & Hl & Hc & _).
        destruct (decide (attemptKey e = key)) as [<-|Hne].
        -- rewrite Hc. lia.
        -- unfold counter. rewrite Hl. rewrite lookup_insert_ne by done. lia.
      * destruct (handleLoadError_terminal_effect w i err e He Hge)
          as (_ & Hl & _).
        unfold counter. rewrite Hl. lia.
    + unfold handleLoadError. simpl. rewrite He. unfold counter. simpl. lia.
  - intros H. unfold withinBound. rewrite handleLoadError_options.
    by apply handleLoadError_counter_bound.
Qed.

Lemma drain_progress w : retryProgress w (drain w).
Proof.
  unfold drain.
  apply (foldl_preserves (fun w' => retryProgress w w')).
  - intros [i err] w' H.
    eapply retryProgress_trans; [exact H | apply handleLoadError_progress].
  - by apply retryProgress_same.
Qed.

Lemma reject_sameInstance i err c w : sameInstance w (reject i err c w).
Proof. unfold reject. by destruct c. Qed.

Lemma updEl_sameInstance i f w : sameInstance w (updEl i f w).
Proof. done. Qed.

Lemma image_onload_sameInstance i w : sameInstance w (image_onload i w).
Proof.
  unfold image_onload.
  eapply sameInstance_trans; [|apply onElementLoaded_sameInstance]. done.
Qed.

Lemma background_onload_sameInstance i url w :
  sameInstance w (background_onload i url w).
Proof.
  unfold background_onload.
  eapply sameInstance_trans; [|apply onElementLoaded_sameInstance]. done.
Qed.

Lemma observeElement_sameInstance x w : sameInstance w (observeElement x w).1.
Proof. unfold observeElement, observe. by destruct (observer w). Qed.

Lemma registerNew_sameInstance x w : sameInstance w (registerNew x w).1.
Proof.
  unfold registerNew. destruct (hasClass w _ x); [done|].
  apply observeElement_sameInstance.
Qed.

Lemma processNewContent_sameInstance c w :
  sameInstance w (processNewContent c w).1.
Proof.
  unfold processNewContent.
  apply (forEach_preserves (fun w' => sameInstance w w'));
    [|apply sameInstance_refl].
  intros x w' H.
  eapply sameInstance_trans; [exact H | apply registerNew_sameInstance].
Qed.

Lemma content_catch_progress i err c w :
  retryProgress w (content_catch i err c w).
Proof.
  unfold content_catch.
  eapply retryProgress_trans; [apply handleLoadError_progress|].
  apply sameInstance_progress, reject_sameInstance.
Qed.

Lemma content_settled_progress i c r w :
  retryProgress w (content_settled i c r w).
Proof.
  unfold content_settled. destruct r as [html|status text|];
    try apply content_catch_progress.
  set (w2 := updEl i (set_dataset (set_d_lazy None)) (setInnerHTML i html w)).
  assert (H2 : retryProgress w w2) by (by apply retryProgress_same).
  pose proof (processNewContent_sameInstance i w2) as H3.
  destruct (processNewContent i w2) as [w3 [err|]]; simpl in H3.
  - eapply retryProgress_trans; [exact H2|].
    eapply retryProgress_trans; [apply sameInstance_progress, H3|].
    apply content_catch_progress.
  - eapply retryProgress_trans; [exact H2|].
    eapply retryProgress_trans; [apply sameInstance_progress, H3|].
    apply sameInstance_progress, onElementLoaded_sameInstance.
Qed.

Lemma perform_progress t w : retryProgress w (perform t w).
Proof.
  destruct t as [i|i url c ok|i url c ok|i c r|i|i]; simpl.
  - apply sameInstance_progress, loadElement_sameInstance.
  - destruct ok.
    + apply sameInstance_progress, image_onload_sameInstance.
    + unfold image_onerror.
      eapply retryProgress_trans; [apply handleLoadError_progress|].
      apply sameInstance_progress, reject_sameInstance.
  - destruct ok.
    + apply sameInstance_progress, background_onload_sameInstance.
    + unfold background_onerror.
      eapply retryProgress_trans; [apply handleLoadError_progress|].
      apply sameInstance_progress, reject_sameInstance.
  - apply content_settled_progress.
  - by apply retryProgress_same.
  - by apply retryProgress_same.
Qed.

Lemma step_progress w : retryProgress w (default w (step w)).
Proof.
  unfold step. destruct (pick (tasks w)) as [[[due t] rest]|]; simpl.
  - set (w1 := set_now (Z.max (now w) due) (set_tasks rest w)).
    assert (H1 : retryProgress w w1) by (by apply retryProgress_same).
    eapply retryProgress_trans; [exact H1|].
    eapply retryProgress_trans; [apply perform_progress | apply drain_progress].
  - apply retryProgress_refl.
Qed.

Lemma handleEntry_sameInstance en w : sameInstance w (handleEntry en w).1.
Proof.
  unfold handleEntry. destruct (isIntersecting en); [|apply sameInstance_refl].
  pose proof (loadElement_sameInstance (target en) w) as H.
  unfold unobserve. by destruct (observer (loadElement (target en) w)).
Qed.

Lemma notify_progress entries w : retryProgress w (notify entries w).
Proof.
  unfold notify.
  eapply retryProgress_trans; [|apply drain_progress].
  apply sameInstance_progress. unfold handleIntersection.
  apply (forEach_preserves (fun w' => sameInstance w w'));
    [|apply sameInstance_refl].
  intros x w' H.
  eapply sameInstance_trans; [exact H | apply handleEntry_sameInstance].
Qed.

Lemma act_progress a w : retryProgress w (act a w).
Proof. destruct a; [apply notify_progress | apply step_progress]. Qed.

Lemma observeElements_sameInstance w : sameInstance w (observeElements w).1.
Proof.
  unfold observeElements.
  apply (forEach_preserves (fun w' => sameInstance w w'));
    [|apply sameInstance_refl].
  intros x w' H.
  eapply sameInstance_trans; [exact H | apply observeElement_sameInstance].
Qed.

Lemma init_progress w : retryProgress w (init w).1.
Proof.
  unfold init. destruct (negb (hasIntersectionObserver w)); simpl.
  - destruct (loadAllImmediately_quiet w) as [(Ho & Hl & _) _].
    by apply retryProgress_same.
  - set (w1 := collectElements (setupObserver w)).
    destruct (observeElements_sameInstance w1) as (Ho & Hl & _).
    by apply retryProgress_same.
Qed.

Lemma refresh_progress w : retryProgress w (refresh w).1.
Proof.
  unfold refresh.
  set (w1 := collectElements (disconnect_if w)).
  destruct (observeElements_sameInstance w1) as (Ho & Hl & _).
  apply retryProgress_same.
  - rewrite Ho. unfold w1, disconnect_if. by destruct (observer w).
  - rewrite Hl. unfold w1, disconnect_if. by destruct (observer w).
Qed.

Lemma unobserve_if_sameInstance i w : sameInstance w (unobserve_if i w).
Proof. unfold unobserve_if. by destruct (observer w). Qed.

Lemma loadNow_sameInstance i w : sameInstance w (loadNow i w).
Proof.
  unfold loadNow.
  eapply sameInstance_trans;
    [apply unobserve_if_sameInstance | apply loadElement_sameInstance].
Qed.

Lemma loadAll_sameInstance w : sameInstance w (loadAll w).
Proof.
  unfold loadAll.
  apply (foldl_preserves (fun w' => sameInstance w w'));
    [|apply sameInstance_refl].
  intros x w' H.
  eapply sameInstance_trans; [exact H | apply (loadNow_sameInstance x w')].
Qed.

Lemma use_progress u w : retryProgress w (use u w).
Proof.
  destruct u as [a| | |i|]; simpl.
  - apply act_progress.
  - eapply retryProgress_trans; [apply init_progress | apply drain_progress].
  - eapply retryProgress_trans; [apply refresh_progress | apply drain_progress].
  - eapply retryProgress_trans; [|apply drain_progress].
    apply sameInstance_progress, loadNow_sameInstance.
  - eapply retryProgress_trans; [|apply drain_progress].
    apply sameInstance_progress, loadAll_sameInstance.
Qed.

Lemma useAll_progress us w : retryProgress w (useAll us w).
Proof.
  unfold useAll.
  apply (foldl_preserves (fun w' => retryProgress w w'));
    [|apply retryProgress_refl].
  intros u w' H.
  eapply retryProgress_trans; [exact H | apply use_progress].
Qed.

(** ** Registration of injected elements *)

Lemma observeElement_some x w s :
  observer w = Some s ->
  observeElement x w
  = (addClass (loadingClass (options w)) x
       (set_observer (Some ({[x]} ∪ s)) w), None).
Proof. intros Hs. unfold observeElement, observe. by rewrite Hs. Qed.

Lemma hasClass_marked c x w o :
  hasClass (addClass c x (set_observer o w)) c x = present w x.
Proof.
  unfold hasClass, present, matches, addClass, updEl. simpl.
  rewrite lookup_alter_eq. destruct (dom w !! x); simpl; [|done].
  apply cl_contains_add.
Qed.

Lemma hasClass_marked_ne c c' x i w o :
  i <> x -> hasClass (addClass c' x (set_observer o w)) c i = hasClass w c i.
Proof.
  intros Hne. unfold hasClass, matches, addClass, updEl. simpl.
  by rewrite lookup_alter_ne.
Qed.

Lemma present_marked c x i w o :
  present (addClass c x (set_observer o w)) i = present w i.
Proof.
  unfold present, matches, addClass, updEl. simpl.
  destruct (decide (x = i)) as [->|Hne].
  - rewrite lookup_alter_eq. by destruct (dom w !! i).
  - by rewrite lookup_alter_ne.
Qed.

Lemma unmarked_marked c x i w o :
  unmarked <$> dom (addClass c x (set_observer o w)) !! i
  = unmarked <$> dom w !! i.
Proof.
  unfold addClass, updEl. simpl.
  destruct (decide (x = i)) as [->|Hne].
  - rewrite lookup_alter_eq. by destruct (dom w !! i).
  - by rewrite lookup_alter_ne.
Qed.

(** With an observer at hand, [processNewContent] does not throw; it
    registers the elements of its list that do not carry the loading
    class, marks them, and touches nothing else. *)
Lemma registerNew_all l :
  forall w s, observer w = Some s ->
  let c := loadingClass (options w) in
  exists w', forEach registerNew l w = (w', None)
    /\ observer w'
       = Some (list_to_set (List.filter (fun i => negb (hasClass w c i)) l) ∪ s)
    /\ (forall i, hasClass w' c i
                  = hasClass w c i || (bool_decide (i ∈ l) && present w i))
    /\ (forall i, unmarked <$> dom w' !! i = unmarked <$> dom w !! i)
    /\ (forall i, i ∉ l -> dom w' !! i = dom w !! i)
    /\ sameInstance w w'
    /\ tasks w' = tasks w /\ micro w' = micro w /\ trace w' = trace w.
Proof.
  induction l as [|x l IH]; intros w s Hs c.
  - exists w. simpl. repeat split; try done.
    + rewrite Hs. f_equal. set_solver.
    + intros i. by rewrite orb_false_r.
  - cbn [forEach List.filter]. unfold registerNew at 1. fold c.
    destruct (hasClass w c x) eqn:Hx; cbn [negb].
    + destruct (IH w s Hs) as (w' & E & Ho & Hc & Hu & Hd & Hi & Ht).
      exists w'. fold c in Ho, Hc. split; [exact E|]. split; [exact Ho|].
      split.
      { intros i. rewrite Hc. destruct (decide (i = x)) as [->|Hne].
        - by rewrite Hx.
        - f_equal. f_equal. apply bool_decide_ext.
          rewrite elem_of_cons. naive_solver. }
      split; [exact Hu|]. split; [|exact (conj Hi Ht)].
      intros i Hn. apply Hd. rewrite elem_of_cons in Hn. tauto.
    + rewrite (observeElement_some x w s Hs). fold c.
      set (w1 := addClass c x (set_observer (Some ({[x]} ∪ s)) w)).
      destruct (IH w1 ({[x]} ∪ s) eq_refl)
        as (w' & E & Ho & Hc & Hu & Hd & Hi & Ht1 & Ht2 & Ht3).
      change (loadingClass (options w1)) with c in Ho, Hc.
      exists w'. split; [exact E|]. split.
      { rewrite Ho. f_equal. apply set_eq. intros j.
        rewrite !elem_of_union, !elem_of_list_to_set, elem_of_cons,
          !list_elem_of_In, !filter_In, elem_of_singleton.
        destruct (decide (j = x)) as [->|Hne]; [tauto|].
        unfold w1. rewrite (hasClass_marked_ne c c x j w _ Hne). tauto. }
      split.
      { intros i. rewrite Hc. unfold w1. rewrite present_marked.
        destruct (decide (i = x)) as [->|Hne].
        - rewrite hasClass_marked, Hx. simpl.
          rewrite (bool_decide_eq_true_2 (x ∈ x :: l))
            by (apply elem_of_cons; auto).
          simpl. by destruct (present w x), (bool_decide (x ∈ l)).
        - rewrite (hasClass_marked_ne c c x i w _ Hne).
          f_equal. f_equal. apply bool_decide_ext.
          rewrite elem_of_cons. naive_solver. }
      split.
      { intros i. rewrite Hu. unfold w1. apply unmarked_marked. }
      split.
      { intros i Hn. rewrite elem_of_cons in Hn. rewrite Hd by tauto.
        unfold w1, addClass, updEl. simpl. rewrite lookup_alter_ne; [done|].
        intros ->. tauto. }
      split.
      { eapply sameInstance_trans; [|exact Hi]. done. }
      by rewrite Ht1, Ht2, Ht3.
Qed.

Lemma elem_of_querySelectorAllIn w c sel i :
  i ∈ querySelectorAllIn w c sel -> present w i = true.
Proof.
  unfold querySelectorAllIn. rewrite list_elem_of_In, filter_In.
  intros [_ H]. unfold present, matches in *. by destruct (dom w !! i).
Qed.

Lemma newElements_present w c i : i ∈ newElements w c -> present w i = true.
Proof.
  unfold newElements. rewrite !elem_of_app.
  intros [H|[H|H]]; by apply elem_of_querySelectorAllIn in H.
Qed.

(** ** Injection of a fragment *)

Lemma insert_nodes_present (nodes : list (nat * Element))
    (d : gmap nat Element) (i : nat) :
  is_Some (d !! i) ->
  is_Some (foldr (fun '(k, e) (d : gmap nat Element) => <[k := e]> d) d nodes
           !! i).
Proof.
  intros H. induction nodes as [|[k e] nodes IH]; simpl; [done|].
  rewrite lookup_insert_is_Some. destruct (decide (k = i)); auto.
Qed.

Lemma setInnerHTML_lookup i html w :
  is_Some (dom w !! i) ->
  exists e0, dom (setInnerHTML i html w) !! i
             = Some (set_children (tops html) e0).
Proof.
  intros H. unfold setInnerHTML, updEl. simpl. rewrite lookup_alter_eq.
  destruct (insert_nodes_present (nodes html) (dom w) i H) as [e0 He0].
  exists e0. by rewrite He0.
Qed.

Lemma onElementLoaded_style i w e :
  dom w !! i = Some e ->
  exists e', dom (onElementLoaded i w) !! i = Some e'
    /\ backgroundImage (style e') = backgroundImage (style e)
    /\ tasks (onElementLoaded i w)
       = tasks w ++
         (if (0 <? fadeInDuration (options w))%Z
          then [((now w + Z.max 0 (frameDelay (env w)))%Z, TAnimationFrame i);
                ((now w + Z.max 0 (fadeInDuration (options w) + 50))%Z,
                 TFadeCleanup i)]
          else [])
    /\ (if (0 <? fadeInDuration (options w))%Z
        then opacity (style e') = "0"
             /\ transition (style e') = OpacityEase (fadeInDuration (options w))
        else style e' = style e).
Proof.
  intros He. unfold onElementLoaded.
  destruct (0 <? fadeInDuration (options w))%Z; simpl.
  - eexists. rewrite !lookup_alter_eq, He. simpl.
    rewrite <- app_assoc. done.
  - eexists. rewrite !lookup_alter_eq, He. simpl.
    by rewrite app_nil_r.
Qed.

(** ** Forced loading *)

Lemma loadAll_fold l :
  forall w,
  let w' := foldl (fun w element => loadElement element (unobserve_if element w))
              w l in
  (forall j, invocations j (trace w')
             = invocations j (trace w) + occurrences j l)
  /\ observer w' = (fun s : gset nat => s ∖ list_to_set l) <$> observer w
  /\ dom w' = dom w.
Proof.
  induction l as [|x l IH]; intros w; simpl.
  - split; [intros j; unfold occurrences; simpl; lia|]. split; [|done].
    destruct (observer w) as [s|]; simpl; [|done]. f_equal. set_solver.
  - destruct (IH (loadElement x (unobserve_if x w))) as (H1 & H2 & H3).
    destruct (loadElement_sync x (unobserve_if x w)) as (Hd & Ho & _).
    split.
    { intros j. rewrite H1, loadElement_invocations.
      assert (E : trace (unobserve_if x w) = trace w).
      { unfold unobserve_if. by destruct (observer w). }
      rewrite E. unfold occurrences. simpl.
      destruct (Nat.eqb j x); simpl; lia. }
    split.
    { rewrite H2, Ho. unfold unobserve_if.
      destruct (observer w) as [s|] eqn:Es; simpl; [|by rewrite Es].
      f_equal. set_solver. }
    rewrite H3, Hd. unfold unobserve_if. by destruct (observer w).
Qed.

(** ** destroy, again *)

Lemma destroy_fields w :
  dom (destroy w)
  = alterAll (clearMarkers (options w))
      (querySelectorAll w (hasMarker (options w))) (dom w)
  /\ options (destroy w) = options w
  /\ tasks (destroy w) = tasks w /\ micro (destroy w) = micro w
  /\ trace (destroy w) = trace w /\ now (destroy w) = now w
  /\ root (destroy w) = root w /\ env (destroy w) = env w
  /\ hasIntersectionObserver (destroy w) = hasIntersectionObserver w.
Proof. unfold destroy. rewrite foldl_updEl. by repeat split. Qed.

Lemma reset_of_clean w :
  observer w = None -> loadAttempts w = ∅ ->
  images w = [] -> backgrounds w = [] -> content w = [] ->
  set_loadAttempts ∅ (set_roster [] [] [] (set_observer None w)) = w.
Proof. destruct w. simpl. by intros -> -> -> -> ->. Qed.

Lemma destroy_twice w : destroy (destroy w) = destroy w.
Proof.
  destruct (destroy_clean w) as (H1 & H2 & H3 & H4 & H5 & H6).
  unfold destroy at 1.
  change (querySelectorAll (set_observer None (destroy w))
            (hasMarker (options (destroy w))))
    with (querySelectorAll (destroy w) (hasMarker (options (destroy w)))).
  rewrite H2. cbn [foldl]. by apply reset_of_clean.
Qed.

(** ** Selections of a selection *)


(** Without an observer [processNewContent] throws at the first element
    that does not carry the loading class, and has changed nothing. *)
Lemma registerNew_none l w :
  observer w = None ->
  forEach registerNew l w
  = (w, if forallb (hasClass w (loadingClass (options w))) l
        then None else Some ErrNullObserver).
Proof.
  intros Hs. induction l as [|x l IH]; [done|].
  cbn [forEach forallb]. unfold registerNew at 1.
  destruct (hasClass w (loadingClass (options w)) x); simpl.
  - exact IH.
  - unfold observeElement, observe. by rewrite Hs.
Qed.

(** * Further properties of the pipeline *)

(** ** loadElement *)




(** ** init *)

(** X2.  In a browser with [IntersectionObserver], [init()] does not
    throw, leaves as roster what the classifier finds, registers exactly
    the roster with a new observer and puts the loading class on every
    element of it; it loads nothing: no request and no timer is started,
    nothing is notified and no counter is written. *)
Theorem X2_init_registers_and_loads_nothing (w : World) :
  hasIntersectionObserver w = true ->
  let w' := (init w).1 in
  let roster := images w' ++ backgrounds w' ++ content w' in
  (init w).2 = None
  /\ images w' = images (collectElements w)
  /\ backgrounds w' = backgrounds (collectElements w)
  /\ content w' = content (collectElements w)
  /\ observer w' = Some (list_to_set roster)
  /\ (forall i, i ∈ roster -> hasClass w' (loadingClass (options w)) i = true)
  /\ tasks w' = tasks w /\ micro w' = micro w /\ trace w' = trace w
  /\ loadAttempts w' = loadAttempts w.
Proof.
  intros Hio. cbv zeta.
  destruct (init_with_observer w Hio)
    as (H1 & H2 & H3 & H4 & H5 & H6 & H7 & H8 & H9 & H10 & _).
  repeat split; try done.
  intros i Hi. unfold hasClass, matches. rewrite H6.
  destruct (markLoading_marks (loadingClass (options w)) _ (dom w) i Hi)
    as (e & He & Hc).
  - apply (collectElements_present w i). by rewrite <- H2, <- H3, <- H4.
  - rewrite He. by apply cl_contains_true.
Qed.

Lemma X2_init_on_the_mixed_page :
  hasIntersectionObserver (mixedPage unreachable true) = true
  /\ observer (init (mixedPage unreachable true)).1
     = Some (list_to_set [1; 2; 3])
  /\ tasks (init (mixedPage unreachable true)).1 = [].
Proof.
  assert (H : hasIntersectionObserver (mixedPage unreachable true) = true)
    by done.
  destruct (X2_init_registers_and_loads_nothing _ H)
    as (_ & _ & _ & _ & Ho & _ & Ht & _).
  split; [exact H|]. split; [|exact Ht].
  rewrite Ho. by vm_compute.
Defined.



(** ** The Retry Policy *)

(** X4.  A failure that finds the counter of the element's key below
    [retryAttempts] raises that counter by one and no other, sets one
    timer for [loadElement] due [retryDelay * (attempts + 1)] after now (a
    negative product counts as zero), and neither touches any element nor
    notifies anybody. *)
Theorem X4_retry_is_linear_backoff
    (w : World) (i : nat) (err : Error) (e : Element) :
  dom w !! i = Some e ->
  (counter w (attemptKey e) < retryAttempts (options w))%Z ->
  let a := counter w (attemptKey e) in
  let w' := handleLoadError i err w in
  tasks w'
  = tasks w ++ [((now w + Z.max 0 (retryDelay (options w) * (a + 1)))%Z,
                 TRetry i)]
  /\ counter w' (attemptKey e) = (a + 1)%Z
  /\ (forall key, key <> attemptKey e -> counter w' key = counter w key)
  /\ dom w' = dom w
  /\ dispatched (trace w') = dispatched (trace w)
  /\ observer w' = observer w.
Proof.
  intros He Hlt. cbv zeta.
  destruct (handleLoadError_retry_effect w i err e He Hlt)
    as (Ht & Hl & Hc & Hd & Htr & Ho & _).
  repeat split; try done.
  - intros key Hk. unfold counter. rewrite Hl.
    by rewrite lookup_insert_ne.
  - rewrite Htr, dispatched_app. simpl. by rewrite app_nil_r.
Qed.

Lemma X4_first_failure_of_the_picture :
  dom (init (onePicture unreachable true)).1 !! 1
  = Some (set_classList (cl_add "lazy-loading") (imgEl (Some "a.jpg")))
  /\ tasks (handleLoadError 1 ErrNetwork (init (onePicture unreachable true)).1)
     = [(1000%Z, TRetry 1)].
Proof.
  assert (H1 : dom (init (onePicture unreachable true)).1 !! 1
               = Some (set_classList (cl_add "lazy-loading")
                         (imgEl (Some "a.jpg")))) by (by vm_compute).
  destruct (X4_retry_is_linear_backoff _ 1 ErrNetwork _ H1) as (Ht & _).
  { by vm_compute. }
  split; [exact H1 | exact Ht].
Defined.

(** X5.  When nothing else is waiting, a preload or fetch that fails
    after [loadElement] started it is handled by [handleLoadError] twice,
    first in the loader's own error handler and then in the [catch] of
    [loadElement]; when the loader was called directly it is handled
    once. *)
Theorem X5_a_failure_through_loadElement_is_handled_twice
    (w : World) (i : nat) (url : string) (status : Z) (text : string) :
  micro w = [] ->
  drain (image_onerror i url ViaLoadElement w)
  = handleLoadError i (ErrImage url) (handleLoadError i (ErrImage url) w)
  /\ drain (background_onerror i url ViaLoadElement w)
     = handleLoadError i (ErrBackground url)
         (handleLoadError i (ErrBackground url) w)
  /\ drain (content_settled i ViaLoadElement FetchFailed w)
     = handleLoadError i ErrNetwork (handleLoadError i ErrNetwork w)
  /\ drain (content_settled i ViaLoadElement (FetchStatus status text) w)
     = handleLoadError i (ErrHttp status text)
         (handleLoadError i (ErrHttp status text) w)
  /\ drain (image_onerror i url Direct w)
     = handleLoadError i (ErrImage url) w
  /\ drain (background_onerror i url Direct w)
     = handleLoadError i (ErrBackground url) w
  /\ drain (content_settled i Direct FetchFailed w)
     = handleLoadError i ErrNetwork w.
Proof.
  intros Hm.
  split; [by apply image_failure_is_handled_twice|].
  split; [by apply background_failure_is_handled_twice|].
  split; [by apply fetch_failure_is_handled_twice|].
  split.
  { unfold content_settled, content_catch, reject.
    rewrite (drain_one _ i (ErrHttp status text)).
    - rewrite set_micro_reset; [done|]. by rewrite handleLoadError_micro.
    - simpl. by rewrite handleLoadError_micro, Hm. }
  repeat split;
    unfold image_onerror, background_onerror, content_settled, content_catch,
      reject; apply drain_nothing; by rewrite handleLoadError_micro.
Qed.

Lemma X5_the_broken_picture_fails :
  micro brokenPicture = []
  /\ drain (image_onerror 1 "a.jpg" ViaLoadElement brokenPicture)
     = handleLoadError 1 (ErrImage "a.jpg")
         (handleLoadError 1 (ErrImage "a.jpg") brokenPicture).
Proof.
  assert (H : micro brokenPicture = []) by (by vm_compute).
  destruct (X5_a_failure_through_loadElement_is_handled_twice
              brokenPicture 1 "a.jpg" 0 "" H) as (H1 & _).
  split; [exact H | exact H1].
Defined.



(** X7.  However a pipeline is used short of [destroy()] (notifications,
    timers and completions of the event loop, [init], [refresh],
    [loadNow], [loadAll], in any order), no attempt counter ever goes
    down, and a counter that is at most [retryAttempts] (or zero, if that
    is negative) never passes it.  So a key whose counter has reached the
    bound stays there: no later failure under that key is retried. *)
Theorem X7_counters_grow_up_to_the_bound
    (w : World) (key : option string) (us : list Use) :
  withinBound w key ->
  let w' := useAll us w in
  options w' = options w
  /\ (counter w key <= counter w' key)%Z
  /\ (counter w' key <= Z.max 0 (retryAttempts (options w)))%Z.
Proof.
  intros Hb. cbv zeta. destruct (useAll_progress us w) as [Ho Hk].
  destruct (Hk key) as [Hmono Hbound].
  split; [exact Ho|]. split; [exact Hmono|].
  specialize (Hbound Hb). unfold withinBound in Hbound.
  by rewrite Ho in Hbound.
Qed.

Lemma X7_the_broken_picture_to_the_end :
  withinBound (onePicture unreachable true) (Some "a.jpg")
  /\ (counter
        (useAll [CallInit; Happens (Notify [mkEntry 1 true]); Happens Tick;
                 Happens Tick; Happens Tick; CallRefresh; CallLoadAll;
                 Happens Tick; Happens Tick]
           (onePicture unreachable true)) (Some "a.jpg") <= 2)%Z.
Proof.
  assert (H : withinBound (onePicture unreachable true) (Some "a.jpg"))
    by (by vm_compute).
  destruct (X7_counters_grow_up_to_the_bound _ _
              [CallInit; Happens (Notify [mkEntry 1 true]); Happens Tick;
               Happens Tick; Happens Tick; CallRefresh; CallLoadAll;
               Happens Tick; Happens Tick] H) as (_ & _ & Hb).
  split; [exact H | exact Hb].
Defined.

(** ** Backgrounds and fragments *)



(** X9.  With an observer at hand, a fetch that succeeds never fails the
    element: the fragment's top-level elements become its children, its
    [data-lazy] is deleted, it is marked as loaded and ['lazyLoaded'] is
    sent once; [handleLoadError] is not entered, no rejection is left and
    no counter is written. *)
Theorem X9_a_fetched_fragment_is_injected
    (w : World) (i : nat) (c : Caller) (html : Fragment) (e : Element)
    (s : gset nat) :
  observer w = Some s ->
  dom w !! i = Some e ->
  let w' := content_settled i c (FetchOk html) w in
  (exists e', dom w' !! i = Some e'
     /\ children e' = tops html
     /\ d_lazy (dataset e') = None
     /\ loadedClass (options w) ∈ classList e')
  /\ dispatched (trace w') = dispatched (trace w) ++ [LazyLoaded i]
  /\ (forall j, failureTimes j (trace w') = failureTimes j (trace w))
  /\ loadAttempts w' = loadAttempts w
  /\ micro w' = micro w.
Proof.
  intros Hs He. cbv zeta. unfold content_settled.
  destruct (setInnerHTML_lookup i html w) as [e0 He0]; [by rewrite He|].
  set (w2 := updEl i (set_dataset (set_d_lazy None)) (setInnerHTML i html w)).
  assert (H2 : dom w2 !! i
               = Some (set_dataset (set_d_lazy None)
                         (set_children (tops html) e0))).
  { unfold w2. by rewrite updEl_lookup, He0. }
  assert (Hs2 : observer w2 = Some s) by done.
  destruct (registerNew_all (newElements w2 i) w2 s Hs2)
    as (w3 & E & _ & _ & Hu & _ & (Ho3 & Hl3 & _) & _ & Hm3 & Ht3).
  change (forEach registerNew (newElements w2 i) w2)
    with (processNewContent i w2) in E.
  rewrite E.
  specialize (Hu i). rewrite H2 in Hu. simpl in Hu.
  destruct (dom w3 !! i) as [e3|] eqn:He3; [|done].
  simpl in Hu. apply (inj Some) in Hu.
  pose proof (f_equal children Hu) as Hch3.
  pose proof (f_equal dataset Hu) as Hd3. simpl in Hch3, Hd3.
  destruct (onElementLoaded_effect w3 i e3 He3)
    as ((e' & He' & Hc & _ & _ & _ & Hd & Hch & _) & _ & Htr & Hl & _ & Hm & _).
  split.
  { exists e'. split; [exact He'|].
    split; [by rewrite Hch|].
    split; [by rewrite Hd, Hd3|].
    rewrite Hc, Ho3. apply elem_of_cl_add. auto. }
  split.
  { rewrite Htr, Ht3, dispatched_app. done. }
  split.
  { intros j. by rewrite Htr, failureTimes_dispatch, Ht3. }
  split; [by rewrite Hl, Hl3 | by rewrite Hm, Hm3].
Qed.

Lemma X9_the_part_is_injected :
  observer onePart = Some (list_to_set [1])
  /\ dom onePart !! 1
     = Some (set_classList (cl_add "lazy-loading")
               (lazyDiv (Some "/part.html")))
  /\ micro (content_settled 1 ViaLoadElement (FetchOk partHtml) onePart) = [].
Proof.
  assert (H1 : observer onePart = Some (list_to_set [1])) by (by vm_compute).
  assert (H2 : dom onePart !! 1
               = Some (set_classList (cl_add "lazy-loading")
                         (lazyDiv (Some "/part.html")))) by (by vm_compute).
  destruct (X9_a_fetched_fragment_is_injected _ 1 ViaLoadElement partHtml
              _ _ H1 H2) as (_ & _ & _ & _ & Hm).
  split; [exact H1|]. split; [exact H2 | exact Hm].
Defined.

(** X10.  With an observer at hand, [processNewContent] does not throw.
    Afterwards every element of the container that matches one of the
    three selectors carries the loading class, but only those that did
    not carry it before have been registered with the observer: an
    injected element that already has the loading class is never
    observed.  No other element is touched and nothing is loaded. *)
Theorem X10_injected_elements_are_registered_unless_marked
    (w : World) (container : nat) (s : gset nat) :
  observer w = Some s ->
  let c := loadingClass (options w) in
  let r := processNewContent container w in
  r.2 = None
  /\ observer r.1
     = Some (list_to_set
               (List.filter (fun i => negb (hasClass w c i))
                  (newElements w container)) ∪ s)
  /\ (forall i, i ∈ newElements w container -> hasClass r.1 c i = true)
  /\ (forall i, i ∉ newElements w container -> dom r.1 !! i = dom w !! i)
  /\ tasks r.1 = tasks w /\ micro r.1 = micro w /\ trace r.1 = trace w.
Proof.
  intros Hs. cbv zeta.
  destruct (registerNew_all (newElements w container) w s Hs)
    as (w' & E & Ho & Hc & _ & Hd & _ & Ht & Hm & Htr).
  change (forEach registerNew (newElements w container) w)
    with (processNewContent container w) in E.
  rewrite E. simpl. split; [done|]. split; [exact Ho|]. split.
  { intros i Hi. rewrite Hc, (newElements_present w container i Hi).
    rewrite (bool_decide_eq_true_2 _ Hi). apply orb_true_r. }
  split; [exact Hd|]. done.
Qed.

Lemma X10_the_picture_in_the_part :
  observer fragmentInjected = Some (list_to_set [1])
  /\ observer (processNewContent 1 fragmentInjected).1
     = Some (list_to_set [1; 2]).
Proof.
  assert (H1 : observer fragmentInjected = Some (list_to_set [1]))
    by (by vm_compute).
  destruct (X10_injected_elements_are_registered_unless_marked
              fragmentInjected 1 _ H1) as (_ & Ho & _).
  split; [exact H1|]. rewrite Ho. by vm_compute.
Defined.

(** ** Calls without an observer *)

(** X11.  On a pipeline that has no observer (before [init()], after
    [destroy()], or in a browser without [IntersectionObserver]),
    [refresh()] recomputes the roster and then throws a [TypeError] at the
    first element of it; only on a page where the classifier finds nothing
    does it return.  In both cases no element is marked and there is
    still no observer. *)
Theorem X11_refresh_without_observer_throws
    (w : World) :
  observer w = None ->
  let r := refresh w in
  r.2 = (match images r.1 ++ backgrounds r.1 ++ content r.1 with
         | [] => None
         | _ :: _ => Some ErrNullObserver
         end)
  /\ images r.1 = images (collectElements w)
  /\ backgrounds r.1 = backgrounds (collectElements w)
  /\ content r.1 = content (collectElements w)
  /\ dom r.1 = dom w
  /\ observer r.1 = None
  /\ tasks r.1 = tasks w /\ trace r.1 = trace w.
Proof.
  intros Hs. cbv zeta. unfold refresh, disconnect_if. rewrite Hs.
  unfold observeElements.
  set (w1 := collectElements w).
  assert (Ho : observer w1 = None) by done.
  assert (Hr : forEach observeElement
                 (images w1 ++ backgrounds w1 ++ content w1) w1
               = (w1, match images w1 ++ backgrounds w1 ++ content w1 with
                      | [] => None
                      | _ :: _ => Some ErrNullObserver
                      end)).
  { destruct (images w1 ++ backgrounds w1 ++ content w1) as [|x l];
      [done | by apply observe_none]. }
  rewrite Hr. cbn [fst snd]. by repeat split.
Qed.

Lemma X11_refresh_before_init :
  observer (onePicture unreachable true) = None
  /\ (refresh (onePicture unreachable true)).2 = Some ErrNullObserver.
Proof.
  assert (H : observer (onePicture unreachable true) = None) by done.
  destruct (X11_refresh_without_observer_throws _ H) as (Hr & _).
  split; [exact H|]. rewrite Hr. by vm_compute.
Defined.

(** ** Notifications and forced loads *)

(** X12.  In a batch only the entries that report an intersection count:
    handling the batch is handling its intersecting entries, and a batch
    without any changes nothing and cannot throw. *)
Theorem X12_entries_that_do_not_intersect_are_ignored
    (entries : list Entry) (w : World) :
  handleIntersection entries w
  = handleIntersection (List.filter isIntersecting entries) w
  /\ (intersecting entries = [] -> handleIntersection entries w = (w, None)).
Proof.
  assert (H : forall w, handleIntersection entries w
                = handleIntersection (List.filter isIntersecting entries) w).
  { unfold handleIntersection. induction entries as [|en entries IH];
      intros w0; [done|].
    simpl. destruct (isIntersecting en) eqn:Hen.
    - simpl. destruct (handleEntry en w0) as [w1 [err|]]; [done | apply IH].
    - unfold handleEntry at 1. rewrite Hen. apply IH. }
  split; [apply H|].
  intros Hnone. rewrite H. unfold intersecting in Hnone.
  by destruct (List.filter isIntersecting entries).
Qed.

(** X13.  [loadNow(element)] enters [loadElement] for the element exactly
    once and for no other, takes the element off the observer and leaves
    every other registration alone; without an observer it loads all the
    same.  It touches no element, counter or roster itself. *)
Theorem X13_loadNow_loads_once_and_unregisters (w : World) (i : nat) :
  let w' := loadNow i w in
  (forall j, invocations j (trace w')
             = invocations j (trace w) + Nat.b2n (Nat.eqb j i))
  /\ ~ registered w' i
  /\ (forall j, j <> i -> (registered w' j <-> registered w j))
  /\ dom w' = dom w
  /\ loadAttempts w' = loadAttempts w.
Proof.
  cbv zeta. unfold loadNow.
  destruct (loadElement_sync i (unobserve_if i w)) as (Hd & Ho & _).
  destruct (loadElement_sameInstance i (unobserve_if i w)) as (_ & Hl & _).
  split.
  { intros j. rewrite loadElement_invocations.
    unfold unobserve_if. by destruct (observer w). }
  unfold registered. rewrite Ho, Hd, Hl. unfold unobserve_if.
  destruct (observer w) as [s|] eqn:Es; simpl; rewrite ?Es.
  - repeat split; try done; set_solver.
  - repeat split; try done; tauto.
Qed.

(** X14.  [loadAll()] enters [loadElement] once for every entry of the
    three rosters whose element carries the loading class, so twice for an
    element that is in two rosters, and never for an element without the
    loading class; it takes exactly these elements off the observer and
    touches no element itself. *)
Theorem X14_loadAll_loads_the_pending_roster_entries (w : World) :
  let w' := loadAll w in
  (forall j, invocations j (trace w')
             = invocations j (trace w) + occurrences j (pendingElements w))
  /\ (forall j, hasClass w (loadingClass (options w)) j = false ->
                invocations j (trace w') = invocations j (trace w))
  /\ (forall j, registered w' j
                <-> registered w j /\ j ∉ pendingElements w)
  /\ dom w' = dom w.
Proof.
  cbv zeta.
  change (loadAll w)
    with (foldl (fun w element => loadElement element (unobserve_if element w))
            w (pendingElements w)).
  destruct (loadAll_fold (pendingElements w) w) as (H1 & H2 & H3).
  split; [exact H1|]. split.
  { intros j Hj. rewrite H1, occurrences_zero; [lia|].
    unfold pendingElements. rewrite !elem_of_app, !list_elem_of_In, !filter_In.
    rewrite Hj. intros [[_ H]|[[_ H]|[_ H]]]; discriminate. }
  split; [|exact H3].
  intros j. unfold registered. rewrite H2.
  destruct (observer w) as [s|]; simpl; [|tauto].
  rewrite elem_of_difference, elem_of_list_to_set. tauto.
Qed.

(** ** destroy and what is still in flight *)

(** X15.  [destroy()] is idempotent.  It cancels nothing: the pending
    timers and completions and the pending rejections are left as they
    are.  It leaves alone every element that carries none of the three
    markers and every element that is not in the document. *)
Theorem X15_destroy_is_idempotent_and_cancels_nothing (w : World) :
  destroy (destroy w) = destroy w
  /\ tasks (destroy w) = tasks w
  /\ micro (destroy w) = micro w
  /\ (forall i e, dom w !! i = Some e -> hasMarker (options w) e = false ->
                  dom (destroy w) !! i = Some e)
  /\ (forall i, i ∉ docElements w -> dom (destroy w) !! i = dom w !! i).
Proof.
  destruct (destroy_fields w) as (Hd & _ & Ht & Hm & _).
  split; [apply destroy_twice|]. split; [exact Ht|]. split; [exact Hm|].
  split.
  - intros i e He Hn. rewrite Hd, alterAll_lookup_notin; [done|].
    intros Hi. apply elem_of_querySelectorAll in Hi.
    unfold matches in Hi. rewrite He in Hi. congruence.
  - intros i Hn. rewrite Hd. apply alterAll_lookup_notin.
    intros Hi. apply Hn. unfold querySelectorAll in Hi.
    by apply list_elem_of_In, filter_In, proj1, list_elem_of_In in Hi.
Qed.

(** X16.  What was in flight when [destroy()] ran still takes effect
    afterwards.  A preload that then succeeds marks the element as loaded
    again and sends ['lazyLoaded'].  A failure that then arrives finds the
    counters reset and, with [retryAttempts] above zero, sets a new retry
    timer. *)
Theorem X16_completions_after_destroy_still_take_effect
    (w : World) (i : nat) (e : Element) (err : Error) :
  dom w !! i = Some e ->
  (0 < retryAttempts (options w))%Z ->
  hasClass (image_onload i (destroy w)) (loadedClass (options w)) i = true
  /\ dispatched (trace (image_onload i (destroy w)))
     = dispatched (trace w) ++ [LazyLoaded i]
  /\ tasks (handleLoadError i err (destroy w))
     = tasks w ++ [((now w + Z.max 0 (retryDelay (options w) * 1))%Z,
                    TRetry i)].
Proof.
  intros He HR.
  destruct (destroy_fields w) as (Hd & Ho & Ht & _ & Htr & Hn & _).
  assert (Hp : is_Some (dom (destroy w) !! i)).
  { rewrite Hd. apply alterAll_present. by rewrite He. }
  destruct Hp as [e0 He0].
  destruct (image_onload_effect (destroy w) i e0 He0)
    as (e' & He' & Hc & _ & _ & _ & _ & Htr').
  split; [|split].
  - unfold hasClass, matches. rewrite He', Hc, Ho. apply cl_contains_add.
  - by rewrite Htr', dispatched_app, Htr.
  - assert (Hc0 : forall key, counter (destroy w) key = 0%Z).
    { intros key. unfold counter, destroy. simpl. by rewrite lookup_empty. }
    destruct (handleLoadError_retry_effect (destroy w) i err e0 He0)
      as (Ht' & _).
    { rewrite Hc0, Ho. lia. }
    rewrite Ht', Hc0, Ho, Ht, Hn. done.
Qed.

Lemma X16_the_picture_after_destroy :
  dom goodPicture !! 1
  = Some (set_classList (cl_add "lazy-loading") (imgEl (Some "a.jpg")))
  /\ (0 < retryAttempts (options goodPicture))%Z
  /\ hasClass (image_onload 1 (destroy goodPicture)) "lazy-loaded" 1 = true.
Proof.
  assert (H1 : dom goodPicture !! 1
               = Some (set_classList (cl_add "lazy-loading")
                         (imgEl (Some "a.jpg")))) by (by vm_compute).
  assert (H2 : (0 < retryAttempts (options goodPicture))%Z) by (by vm_compute).
  destruct (X16_completions_after_destroy_still_take_effect
              goodPicture 1 _ ErrNetwork H1 H2) as (Hc & _).
  split; [exact H1|]. split; [exact H2 | exact Hc].
Defined.

(** ** The fade-in *)

(** X17.  With a [fadeInDuration] above zero, marking an element as loaded
    sets its inline opacity to ['0'] and a transition, asks for one
    animation frame and sets one timer [fadeInDuration + 50] ms ahead.
    When the frame comes before the timer, both inline styles are empty
    at the end, whatever they were before; when the timer comes first,
    the inline opacity stays ['1'].  With a [fadeInDuration] of zero or
    less, no style is touched and nothing is scheduled. *)
Theorem X17_fade_in_and_its_cleanup (w : World) (i : nat) (e : Element) :
  dom w !! i = Some e ->
  let d := fadeInDuration (options w) in
  let w1 := onElementLoaded i w in
  if (0 <? d)%Z then
    tasks w1 = tasks w ++
               [((now w + Z.max 0 (frameDelay (env w)))%Z, TAnimationFrame i);
                ((now w + (d + 50))%Z, TFadeCleanup i)]
    /\ (exists e1, dom w1 !! i = Some e1
          /\ opacity (style e1) = "0"
          /\ transition (style e1) = OpacityEase d)
    /\ (exists e2,
          dom (perform (TFadeCleanup i) (perform (TAnimationFrame i) w1)) !! i
          = Some e2
          /\ opacity (style e2) = ""
          /\ transition (style e2) = NoTransition
          /\ backgroundImage (style e2) = backgroundImage (style e))
    /\ (exists e3,
          dom (perform (TAnimationFrame i) (perform (TFadeCleanup i) w1)) !! i
          = Some e3
          /\ opacity (style e3) = "1"
          /\ transition (style e3) = NoTransition)
  else
    tasks w1 = tasks w
    /\ exists e1, dom w1 !! i = Some e1 /\ style e1 = style e.
Proof.
  intros He. cbv zeta.
  destruct (onElementLoaded_style i w e He) as (e' & He' & Hb & Ht & Hs).
  destruct (0 <? fadeInDuration (options w))%Z eqn:Hd.
  - apply Z.ltb_lt in Hd. destruct Hs as [Hop Htr].
    split.
    { rewrite Ht. by rewrite (Z.max_r 0 (fadeInDuration (options w) + 50))
        by lia. }
    split; [by exists e'|].
    split; cbn [perform]; rewrite !updEl_lookup, He'; simpl; eexists;
      (split; [reflexivity|]); simpl; by repeat split.
  - split; [by rewrite Ht, app_nil_r|]. by exists e'.
Qed.

Lemma X17_the_good_picture_fades_in :
  dom goodPicture !! 1
  = Some (set_classList (cl_add "lazy-loading") (imgEl (Some "a.jpg")))
  /\ tasks (onElementLoaded 1 goodPicture)
     = tasks goodPicture
       ++ [(16%Z, TAnimationFrame 1); (350%Z, TFadeCleanup 1)].
Proof.
  assert (H1 : dom goodPicture !! 1
               = Some (set_classList (cl_add "lazy-loading")
                         (imgEl (Some "a.jpg")))) by (by vm_compute).
  pose proof (X17_fade_in_and_its_cleanup goodPicture 1 _ H1) as H.
  destruct H as (Ht & _).
  split; [exact H1 | exact Ht].
Defined.

(** ** Native lazy loading *)



(** ** Fragments without an observer *)

(** X19.  Without an observer, [processNewContent] throws a [TypeError]
    exactly when the container holds a matching element that does not
    carry the loading class, and changes nothing either way.  A fetch
    that succeeds for such a container therefore injects the fragment,
    deletes [data-lazy] and is then handled as a failure of the element
    with that [TypeError]; for a container without such elements it marks
    the element as loaded. *)
Theorem X19_fragment_with_lazy_elements_fails_without_observer
    (w : World) (i : nat) (c : Caller) (html : Fragment) :
  observer w = None ->
  let unmarkedFound (w0 : World) :=
    negb (forallb (hasClass w0 (loadingClass (options w0))) (newElements w0 i))
  in
  let w2 := updEl i (set_dataset (set_d_lazy None)) (setInnerHTML i html w) in
  processNewContent i w
  = (w, if unmarkedFound w then Some ErrNullObserver else None)
  /\ content_settled i c (FetchOk html) w
     = (if unmarkedFound w2 then content_catch i ErrNullObserver c w2
        else onElementLoaded i w2).
Proof.
  intros Hs. cbv zeta. split.
  - change (processNewContent i w)
      with (forEach registerNew (newElements w i) w).
    rewrite (registerNew_none _ w Hs).
    by destruct (forallb _ _).
  - unfold content_settled.
    set (w2 := updEl i (set_dataset (set_d_lazy None)) (setInnerHTML i html w)).
    change (processNewContent i w2)
      with (forEach registerNew (newElements w2 i) w2).
    rewrite (registerNew_none _ w2) by done.
    by destruct (forallb _ _).
Qed.

Lemma X19_the_part_in_a_legacy_browser :
  observer fragmentInjectedLegacy = None
  /\ (processNewContent 1 fragmentInjectedLegacy).2 = Some ErrNullObserver.
Proof.
  assert (H : observer fragmentInjectedLegacy = None) by (by vm_compute).
  destruct (X19_fragment_with_lazy_elements_fails_without_observer
              fragmentInjectedLegacy 1 Direct partHtml H) as (Hp & _).
  split; [exact H|]. rewrite Hp. by vm_compute.
Defined.
